(** * KuduGrab: capture orchestration and multi-monitor compositing

    A shallow embedding of [KuduGrab.py] (class [ScreenCaptureApp] and the
    event handlers of [OverlayWidget]) together with the values of the Qt
    types the program computes with ([QPoint], [QRect], [QPixmap]), and the
    properties of the capture session, of the compositing loop and of the
    file naming that the specification states.

    Conventions of the embedding:
    - Python integers are [Z]; screen coordinates stay far inside the 32-bit
      range of Qt's [int], so no wrap-around is written.
    - A pixel is either fully transparent ([None]) or an opaque colour
      ([Some c]); this is what [selection.fill(Qt.transparent)] and
      [screen.grabWindow(0)] produce.
    - The fields of [self] are the record [App]; everything outside the
      Python object (screens, window system, file system, clipboard, timers)
      is the record [World], whose [trace] lists the externally visible
      effects in the order the program performs them. *)

From Stdlib Require Import ZArith Lia Ascii String.
From stdpp Require Import base tactics option list gmap strings pretty.

Local Open Scope Z_scope.

(** ** Qt value types *)

(** [QPoint]: a pair of integer coordinates; [QPoint()] is the origin and
    [isNull] holds exactly there. *)
Module QPoint.
Record t := make { x : Z; y : Z }.

Definition null : t := make 0 0.
Definition isNull (p : t) : bool := (x p =? 0) && (y p =? 0).
Definition add (p q : t) : t := make (x p + x q) (y p + y q).
Definition sub (p q : t) : t := make (x p - x q) (y p - y q).
End QPoint.

(** [QRect]: stored, as in Qt, by its two corners; [QRect(x, y, w, h)] has
    corners [(x, y)] and [(x + w - 1, y + h - 1)]. *)
Module QRect.
Record t := corners { x1 : Z; y1 : Z; x2 : Z; y2 : Z }.

Definition make (x y w h : Z) : t := corners x y (x + w - 1) (y + h - 1).
Definition null : t := corners 0 0 (-1) (-1).

Definition x (r : t) : Z := x1 r.
Definition y (r : t) : Z := y1 r.
Definition width (r : t) : Z := x2 r - x1 r + 1.
Definition height (r : t) : Z := y2 r - y1 r + 1.
Definition topLeft (r : t) : QPoint.t := QPoint.make (x1 r) (y1 r).
Definition bottomRight (r : t) : QPoint.t := QPoint.make (x2 r) (y2 r).

Definition isNull (r : t) : bool := (x2 r =? x1 r - 1) && (y2 r =? y1 r - 1).
Definition isEmpty (r : t) : bool := (x2 r <? x1 r) || (y2 r <? y1 r).

(** Left/right (or top/bottom) edge of a span after Qt's normalisation of
    a negative extent. *)
Definition lo (a b : Z) : Z := if b - a + 1 <? 0 then b else a.
Definition hi (a b : Z) : Z := if b - a + 1 <? 0 then a else b.

(** [QRect::intersected] ([operator&]). *)
Definition intersected (r s : t) : t :=
  if isNull r || isNull s then null
  else
    let l1 := lo (x1 r) (x2 r) in let r1 := hi (x1 r) (x2 r) in
    let l2 := lo (x1 s) (x2 s) in let r2 := hi (x1 s) (x2 s) in
    if (r2 <? l1) || (r1 <? l2) then null
    else
      let t1 := lo (y1 r) (y2 r) in let b1 := hi (y1 r) (y2 r) in
      let t2 := lo (y1 s) (y2 s) in let b2 := hi (y1 s) (y2 s) in
      if (b2 <? t1) || (b1 <? t2) then null
      else corners (Z.max l1 l2) (Z.max t1 t2) (Z.min r1 r2) (Z.min b1 b2).

(** [QRect::contains(QPoint)] (edges included). *)
Definition contains (r : t) (p : QPoint.t) : bool :=
  let l := if x2 r <? x1 r - 1 then x2 r else x1 r in
  let rr := if x2 r <? x1 r - 1 then x1 r else x2 r in
  if (QPoint.x p <? l) || (rr <? QPoint.x p) then false
  else
    let tp := if y2 r <? y1 r - 1 then y2 r else y1 r in
    let bt := if y2 r <? y1 r - 1 then y1 r else y2 r in
    negb ((QPoint.y p <? tp) || (bt <? QPoint.y p)).

(** The pixel [(px, py)] lies in the rectangle. *)
Definition covers (r : t) (px py : Z) : Prop :=
  x1 r <= px <= x2 r /\ y1 r <= py <= y2 r.
End QRect.

(** A pixel: [None] is fully transparent, [Some c] is the opaque colour
    [c] (an RGB value). *)
Definition pixel : Type := option Z.

(** Painting [src] over [dst] (the painter's default source-over mode). *)
Definition over (src dst : pixel) : pixel :=
  match src with
  | Some c => Some c
  | None => dst
  end.

(** [QPixmap]: a raster of [width] x [height] pixels. *)
Module QPixmap.
Record t := make { width : Z; height : Z; data : Z -> Z -> pixel }.

(** [QPixmap(w, h)] followed by [fill(Qt.transparent)]. *)
Definition transparent (w h : Z) : t := make w h (fun _ _ => None).

Definition isNull (p : t) : bool := (width p <=? 0) || (height p <=? 0).

Definition inside (p : t) (px py : Z) : bool :=
  (0 <=? px) && (px <? width p) && (0 <=? py) && (py <? height p).

(** The pixel at [(px, py)]; nothing outside the raster. *)
Definition pixelAt (p : t) (px py : Z) : pixel :=
  if inside p px py then data p px py else None.

(** [QPainter(dst).drawPixmap(x, y, src, sx, sy, sw, sh)]: the block of
    [src] with origin [(sx, sy)] and size [sw] x [sh] is painted with its
    top-left corner at [(x, y)]; a non-positive [sw] or [sh] stands for
    the rest of [src]. *)
Definition drawPixmap (dst : t) (x y : Z) (src : t) (sx sy sw sh : Z) : t :=
  let sw' := if sw <=? 0 then width src - sx else sw in
  let sh' := if sh <=? 0 then height src - sy else sh in
  make (width dst) (height dst)
       (fun px py =>
          if (x <=? px) && (px <? x + sw') && (y <=? py) && (py <? y + sh')
          then over (pixelAt src (px - x + sx) (py - y + sy)) (data dst px py)
          else data dst px py).

(** [QPixmap.copy(x, y, w, h)]: the crop of [p] at offset [(x, y)]. *)
Definition copy (p : t) (x y w h : Z) : t :=
  make w h (fun px py => pixelAt p (px + x) (py + y)).

(** The raster as rows of pixels, top row first ([toImage]). *)
Definition toImage (p : t) : list (list pixel) :=
  (fun py => (fun px => pixelAt p px py) <$> seqZ 0 (width p)) <$> seqZ 0 (height p).
End QPixmap.

(** ** The compositing loop

    [finish_capture] (lines 595-627) and [capture_from_coordinates]
    (lines 297-325) run the same loop over the [screenshots] dictionary,
    whose items are visited in insertion order. *)

Record ScreenData := { geometry : QRect.t; pixmap : QPixmap.t }.

(** What one iteration of the loop does with its screen. *)
Inductive PaintOp :=
| InvalidPixmap (i : nat)
| Blit (i : nat) (dst_x dst_y src_x src_y w h : Z)
| OutOfBounds (i : nat).

Definition op_screen (o : PaintOp) : nat :=
  match o with
  | InvalidPixmap i => i
  | Blit i _ _ _ _ _ _ => i
  | OutOfBounds i => i
  end.

Definition is_blit (o : PaintOp) : bool :=
  match o with
  | Blit _ _ _ _ _ _ _ => true
  | _ => false
  end.

Record Painter := { selection : QPixmap.t; ops : list PaintOp }.

(** The validation of the source block ("Double-check valid source
    coordinates"). *)
Definition src_valid (src_x src_y : Z) (overlap : QRect.t) (pm : QPixmap.t) : bool :=
  (0 <=? src_x) && (0 <=? src_y)
  && (src_x + QRect.width overlap <=? QPixmap.width pm)
  && (src_y + QRect.height overlap <=? QPixmap.height pm).

(** The body of [for i, screen_data in screenshots.items()]. *)
Definition composite_screen (x1 y1 : Z) (selection_rect : QRect.t)
    (painter : Painter) (item : nat * ScreenData) : Painter :=
  let i := item.1 in
  let geom := geometry item.2 in
  let pm := pixmap item.2 in
  if QPixmap.isNull pm then
    {| selection := selection painter; ops := ops painter ++ [InvalidPixmap i] |}
  else
    let overlap := QRect.intersected selection_rect geom in
    if negb (QRect.isEmpty overlap) then
      let src_x := QRect.x overlap - QRect.x geom in
      let src_y := QRect.y overlap - QRect.y geom in
      let dst_x := QRect.x overlap - x1 in
      let dst_y := QRect.y overlap - y1 in
      if src_valid src_x src_y overlap pm then
        {| selection := QPixmap.drawPixmap (selection painter) dst_x dst_y pm
                          src_x src_y (QRect.width overlap) (QRect.height overlap);
           ops := ops painter
                  ++ [Blit i dst_x dst_y src_x src_y
                        (QRect.width overlap) (QRect.height overlap)] |}
      else
        {| selection := selection painter; ops := ops painter ++ [OutOfBounds i] |}
    else painter.

(** From [selection = QPixmap(width, height)] to [painter.end()]. *)
Definition composite (x1 y1 width height : Z)
    (screenshots : list (nat * ScreenData)) : Painter :=
  foldl (composite_screen x1 y1 (QRect.make x1 y1 width height))
        {| selection := QPixmap.transparent width height; ops := [] |}
        screenshots.

(** ** File names

    [os.path.join] with its POSIX separator, Python's [str] of an integer
    (stdpp's [pretty]: decimal digits, a leading minus sign for negative
    numbers) and the names built by the f-strings of lines 638-643. *)

Local Open Scope string_scope.

Fixpoint endswith_sep (s : string) : bool :=
  match s with
  | EmptyString => false
  | String c EmptyString => bool_decide (c = "/"%char)
  | String _ rest => endswith_sep rest
  end.

Definition join (a b : string) : string :=
  if String.prefix "/" b then b
  else if bool_decide (a = "") || endswith_sep a then a +:+ b
  else a +:+ "/" +:+ b.

(** [f"capture_{x1}_{y1}_{width}x{height}"], the part shared by all names. *)
Definition capture_stem (x1 y1 width height : Z) : string :=
  "capture_" +:+ pretty x1 +:+ "_" +:+ pretty y1 +:+ "_"
  +:+ pretty width +:+ "x" +:+ pretty height.

(** [f"capture_{x1}_{y1}_{width}x{height}.png"] *)
Definition capture_name (x1 y1 width height : Z) : string :=
  capture_stem x1 y1 width height +:+ ".png".

(** [f"capture_{x1}_{y1}_{width}x{height}_{counter}.png"] *)
Definition numbered_name (x1 y1 width height counter : Z) : string :=
  capture_stem x1 y1 width height +:+ "_" +:+ pretty counter +:+ ".png".

(** The loop [while os.path.exists(filepath): ...] of lines 641-644, with
    the number of iterations bounded by [fuel]; [files] is the set of paths
    that exist. *)
Fixpoint unused_path (fuel : nat) (files : gset string) (save_location : string)
    (x1 y1 width height : Z) (filepath : string) (counter : Z) : option string :=
  match fuel with
  | O => None
  | S fuel' =>
      if bool_decide (filepath ∈ files) then
        unused_path fuel' files save_location x1 y1 width height
          (join save_location (numbered_name x1 y1 width height counter))
          (counter + 1)
      else Some filepath
  end.

(** Lines 638-644: the first name, [counter = 1], and the loop.  One more
    iteration than there are existing paths is always enough
    ([fixed_location_path_total]). *)
Definition fixed_location_path (files : gset string) (save_location : string)
    (x1 y1 width height : Z) : option string :=
  unused_path (S (size files)) files save_location x1 y1 width height
    (join save_location (capture_name x1 y1 width height)) 1.

Local Close Scope string_scope.

(** ** The application object and its environment *)

Inductive CaptureMode := freehand | fixed | rapid.
Inductive OutputMode := clipboard | fixed_location | new_location.

Global Instance CaptureMode_eq_dec : EqDecision CaptureMode.
Proof. solve_decision. Defined.

(** An [OverlayWidget] object: the attributes set by [__init__] and the
    state of its window. *)
Record OverlayWidget := {
  screen_geometry : QRect.t;
  mode : option CaptureMode;
  fixed_width : Z;
  fixed_height : Z;
  is_drawing : bool;
  update_timer : bool;          (* the 50 ms timer exists and is active *)
  visible : bool;
  closed : bool
}.

(** What may go wrong with a screen while its overlay is set up: the
    widget constructor, [grabWindow] or [show] raises. *)
Inductive Fault := NoFault | CtorRaises | GrabRaises | ShowRaises.

Record QScreen := {
  screen_geom : QRect.t;
  framebuffer : QPixmap.t;      (* what [grabWindow(0)] returns *)
  fault : Fault
}.

Inductive Callback :=
| CreateOverlays (width height : Z)
| FinishCapture.

(** Externally visible effects. *)
Inductive Effect :=
| SaveConfig (sizes : list Z) (default_w default_h : Z) (save_location : string)
| SingleShot (ms : Z) (callback : Callback)
| Composite (selection_rect : QRect.t) (ops : list PaintOp)
| ClipboardSetImage (image : list (list pixel))
| SavePixmap (filepath : string) (image : list (list pixel))
| SaveFileDialog (suggested : string).

Definition is_composite (e : Effect) : bool :=
  match e with Composite _ _ => true | _ => false end.

Definition is_delivery (e : Effect) : bool :=
  match e with
  | ClipboardSetImage _ | SavePixmap _ _ | SaveFileDialog _ => true
  | _ => false
  end.

Definition is_deferral (e : Effect) : bool :=
  match e with SingleShot _ _ => true | _ => false end.

Record World := {
  screens : list QScreen;       (* [QApplication.screens()] *)
  widgets : list OverlayWidget; (* every overlay object created so far *)
  window_visible : bool;        (* the main window *)
  files : gset string;          (* existing paths *)
  dialog_reply : string;        (* what the save dialog returns *)
  trace : list Effect
}.

(** The attributes of [ScreenCaptureApp]; [overlays] holds references
    (indices into [widgets]). *)
Record App := {
  last_capture_begin : option QPoint.t;
  last_capture_end : option QPoint.t;
  is_capturing : bool;
  capture_mode : option CaptureMode;
  global_begin : QPoint.t;
  global_end : QPoint.t;
  output_mode : OutputMode;
  sizes : list Z;
  default_w : Z;
  default_h : Z;
  save_location : string;
  overlays : list nat;
  screenshots : list (nat * ScreenData);
  last_capture_pixmap : option QPixmap.t;
  is_overlay_operation_in_progress : bool;
  toggleFrameBtn_enabled : bool
}.

(** *** Attribute assignments *)

Definition set_is_drawing (v : bool) (o : OverlayWidget) : OverlayWidget :=
  {| screen_geometry := screen_geometry o;
     mode := mode o;
     fixed_width := fixed_width o;
     fixed_height := fixed_height o;
     is_drawing := v;
     update_timer := update_timer o;
     visible := visible o;
     closed := closed o |}.

Definition set_update_timer (v : bool) (o : OverlayWidget) : OverlayWidget :=
  {| screen_geometry := screen_geometry o;
     mode := mode o;
     fixed_width := fixed_width o;
     fixed_height := fixed_height o;
     is_drawing := is_drawing o;
     update_timer := v;
     visible := visible o;
     closed := closed o |}.

Definition set_visible (v : bool) (o : OverlayWidget) : OverlayWidget :=
  {| screen_geometry := screen_geometry o;
     mode := mode o;
     fixed_width := fixed_width o;
     fixed_height := fixed_height o;
     is_drawing := is_drawing o;
     update_timer := update_timer o;
     visible := v;
     closed := closed o |}.

Definition set_closed (v : bool) (o : OverlayWidget) : OverlayWidget :=
  {| screen_geometry := screen_geometry o;
     mode := mode o;
     fixed_width := fixed_width o;
     fixed_height := fixed_height o;
     is_drawing := is_drawing o;
     update_timer := update_timer o;
     visible := visible o;
     closed := v |}.

Definition set_widgets (v : list OverlayWidget) (w : World) : World :=
  {| screens := screens w;
     widgets := v;
     window_visible := window_visible w;
     files := files w;
     dialog_reply := dialog_reply w;
     trace := trace w |}.

Definition set_window_visible (v : bool) (w : World) : World :=
  {| screens := screens w;
     widgets := widgets w;
     window_visible := v;
     files := files w;
     dialog_reply := dialog_reply w;
     trace := trace w |}.

Definition set_files (v : gset string) (w : World) : World :=
  {| screens := screens w;
     widgets := widgets w;
     window_visible := window_visible w;
     files := v;
     dialog_reply := dialog_reply w;
     trace := trace w |}.

Definition set_trace (v : list Effect) (w : World) : World :=
  {| screens := screens w;
     widgets := widgets w;
     window_visible := window_visible w;
     files := files w;
     dialog_reply := dialog_reply w;
     trace := v |}.

Definition set_last_capture_begin (v : option QPoint.t) (a : App) : App :=
  {| last_capture_begin := v;
     last_capture_end := last_capture_end a;
     is_capturing := is_capturing a;
     capture_mode := capture_mode a;
     global_begin := global_begin a;
     global_end := global_end a;
     output_mode := output_mode a;
     sizes := sizes a;
     default_w := default_w a;
     default_h := default_h a;
     save_location := save_location a;
     overlays := overlays a;
     screenshots := screenshots a;
     last_capture_pixmap := last_capture_pixmap a;
     is_overlay_operation_in_progress := is_overlay_operation_in_progress a;
     toggleFrameBtn_enabled := toggleFrameBtn_enabled a |}.

Definition set_last_capture_end (v : option QPoint.t) (a : App) : App :=
  {| last_capture_begin := last_capture_begin a;
     last_capture_end := v;
     is_capturing := is_capturing a;
     capture_mode := capture_mode a;
     global_begin := global_begin a;
     global_end := global_end a;
     output_mode := output_mode a;
     sizes := sizes a;
     default_w := default_w a;
     default_h := default_h a;
     save_location := save_location a;
     overlays := overlays a;
     screenshots := screenshots a;
     last_capture_pixmap := last_capture_pixmap a;
     is_overlay_operation_in_progress := is_overlay_operation_in_progress a;
     toggleFrameBtn_enabled := toggleFrameBtn_enabled a |}.

Definition set_is_capturing (v : bool) (a : App) : App :=
  {| last_capture_begin := last_capture_begin a;
     last_capture_end := last_capture_end a;
     is_capturing := v;
     capture_mode := capture_mode a;
     global_begin := global_begin a;
     global_end := global_end a;
     output_mode := output_mode a;
     sizes := sizes a;
     default_w := default_w a;
     default_h := default_h a;
     save_location := save_location a;
     overlays := overlays a;
     screenshots := screenshots a;
     last_capture_pixmap := last_capture_pixmap a;
     is_overlay_operation_in_progress := is_overlay_operation_in_progress a;
     toggleFrameBtn_enabled := toggleFrameBtn_enabled a |}.

Definition set_capture_mode (v : option CaptureMode) (a : App) : App :=
  {| last_capture_begin := last_capture_begin a;
     last_capture_end := last_capture_end a;
     is_capturing := is_capturing a;
     capture_mode := v;
     global_begin := global_begin a;
     global_end := global_end a;
     output_mode := output_mode a;
     sizes := sizes a;
     default_w := default_w a;
     default_h := default_h a;
     save_location := save_location a;
     overlays := overlays a;
     screenshots := screenshots a;
     last_capture_pixmap := last_capture_pixmap a;
     is_overlay_operation_in_progress := is_overlay_operation_in_progress a;
     toggleFrameBtn_enabled := toggleFrameBtn_enabled a |}.

Definition set_global_begin (v : QPoint.t) (a : App) : App :=
  {| last_capture_begin := last_capture_begin a;
     last_capture_end := last_capture_end a;
     is_capturing := is_capturing a;
     capture_mode := capture_mode a;
     global_begin := v;
     global_end := global_end a;
     output_mode := output_mode a;
     sizes := sizes a;
     default_w := default_w a;
     default_h := default_h a;
     save_location := save_location a;
     overlays := overlays a;
     screenshots := screenshots a;
     last_capture_pixmap := last_capture_pixmap a;
     is_overlay_operation_in_progress := is_overlay_operation_in_progress a;
     toggleFrameBtn_enabled := toggleFrameBtn_enabled a |}.

Definition set_global_end (v : QPoint.t) (a : App) : App :=
  {| last_capture_begin := last_capture_begin a;
     last_capture_end := last_capture_end a;
     is_capturing := is_capturing a;
     capture_mode := capture_mode a;
     global_begin := global_begin a;
     global_end := v;
     output_mode := output_mode a;
     sizes := sizes a;
     default_w := default_w a;
     default_h := default_h a;
     save_location := save_location a;
     overlays := overlays a;
     screenshots := screenshots a;
     last_capture_pixmap := last_capture_pixmap a;
     is_overlay_operation_in_progress := is_overlay_operation_in_progress a;
     toggleFrameBtn_enabled := toggleFrameBtn_enabled a |}.

Definition set_default_w (v : Z) (a : App) : App :=
  {| last_capture_begin := last_capture_begin a;
     last_capture_end := last_capture_end a;
     is_capturing := is_capturing a;
     capture_mode := capture_mode a;
     global_begin := global_begin a;
     global_end := global_end a;
     output_mode := output_mode a;
     sizes := sizes a;
     default_w := v;
     default_h := default_h a;
     save_location := save_location a;
     overlays := overlays a;
     screenshots := screenshots a;
     last_capture_pixmap := last_capture_pixmap a;
     is_overlay_operation_in_progress := is_overlay_operation_in_progress a;
     toggleFrameBtn_enabled := toggleFrameBtn_enabled a |}.

Definition set_default_h (v : Z) (a : App) : App :=
  {| last_capture_begin := last_capture_begin a;
     last_capture_end := last_capture_end a;
     is_capturing := is_capturing a;
     capture_mode := capture_mode a;
     global_begin := global_begin a;
     global_end := global_end a;
     output_mode := output_mode a;
     sizes := sizes a;
     default_w := default_w a;
     default_h := v;
     save_location := save_location a;
     overlays := overlays a;
     screenshots := screenshots a;
     last_capture_pixmap := last_capture_pixmap a;
     is_overlay_operation_in_progress := is_overlay_operation_in_progress a;
     toggleFrameBtn_enabled := toggleFrameBtn_enabled a |}.

Definition set_overlays (v : list nat) (a : App) : App :=
  {| last_capture_begin := last_capture_begin a;
     last_capture_end := last_capture_end a;
     is_capturing := is_capturing a;
     capture_mode := capture_mode a;
     global_begin := global_begin a;
     global_end := global_end a;
     output_mode := output_mode a;
     sizes := sizes a;
     default_w := default_w a;
     default_h := default_h a;
     save_location := save_location a;
     overlays := v;
     screenshots := screenshots a;
     last_capture_pixmap := last_capture_pixmap a;
     is_overlay_operation_in_progress := is_overlay_operation_in_progress a;
     toggleFrameBtn_enabled := toggleFrameBtn_enabled a |}.

Definition set_screenshots (v : list (nat * ScreenData)) (a : App) : App :=
  {| last_capture_begin := last_capture_begin a;
     last_capture_end := last_capture_end a;
     is_capturing := is_capturing a;
     capture_mode := capture_mode a;
     global_begin := global_begin a;
     global_end := global_end a;
     output_mode := output_mode a;
     sizes := sizes a;
     default_w := default_w a;
     default_h := default_h a;
     save_location := save_location a;
     overlays := overlays a;
     screenshots := v;
     last_capture_pixmap := last_capture_pixmap a;
     is_overlay_operation_in_progress := is_overlay_operation_in_progress a;
     toggleFrameBtn_enabled := toggleFrameBtn_enabled a |}.

Definition set_last_capture_pixmap (v : option QPixmap.t) (a : App) : App :=
  {| last_capture_begin := last_capture_begin a;
     last_capture_end := last_capture_end a;
     is_capturing := is_capturing a;
     capture_mode := capture_mode a;
     global_begin := global_begin a;
     global_end := global_end a;
     output_mode := output_mode a;
     sizes := sizes a;
     default_w := default_w a;
     default_h := default_h a;
     save_location := save_location a;
     overlays := overlays a;
     screenshots := screenshots a;
     last_capture_pixmap := v;
     is_overlay_operation_in_progress := is_overlay_operation_in_progress a;
     toggleFrameBtn_enabled := toggleFrameBtn_enabled a |}.

Definition set_is_overlay_operation_in_progress (v : bool) (a : App) : App :=
  {| last_capture_begin := last_capture_begin a;
     last_capture_end := last_capture_end a;
     is_capturing := is_capturing a;
     capture_mode := capture_mode a;
     global_begin := global_begin a;
     global_end := global_end a;
     output_mode := output_mode a;
     sizes := sizes a;
     default_w := default_w a;
     default_h := default_h a;
     save_location := save_location a;
     overlays := overlays a;
     screenshots := screenshots a;
     last_capture_pixmap := last_capture_pixmap a;
     is_overlay_operation_in_progress := v;
     toggleFrameBtn_enabled := toggleFrameBtn_enabled a |}.

Definition set_toggleFrameBtn_enabled (v : bool) (a : App) : App :=
  {| last_capture_begin := last_capture_begin a;
     last_capture_end := last_capture_end a;
     is_capturing := is_capturing a;
     capture_mode := capture_mode a;
     global_begin := global_begin a;
     global_end := global_end a;
     output_mode := output_mode a;
     sizes := sizes a;
     default_w := default_w a;
     default_h := default_h a;
     save_location := save_location a;
     overlays := overlays a;
     screenshots := screenshots a;
     last_capture_pixmap := last_capture_pixmap a;
     is_overlay_operation_in_progress := is_overlay_operation_in_progress a;
     toggleFrameBtn_enabled := v |}.

Definition emit (e : Effect) (w : World) : World := set_trace (trace w ++ [e]) w.

(** [self.show()] and [self.hide()] of the main window. *)
Definition show (w : World) : World := set_window_visible true w.
Definition hide (w : World) : World := set_window_visible false w.

(** ** Methods of [ScreenCaptureApp] *)

(** [overlay.hide(); overlay.close()] *)
Definition close_overlay (o : OverlayWidget) : OverlayWidget :=
  set_closed true (set_visible false o).

(** [overlay.show()] *)
Definition show_overlay (o : OverlayWidget) : OverlayWidget := set_visible true o.

(** Lines 462-498. *)
Definition _cleanup_overlays (a : App) (w : World) : App * World :=
  let w1 := set_widgets (foldl (fun ws id => alter close_overlay id ws)
                               (widgets w) (overlays a)) w in
  let a1 := set_overlays [] a in
  let a2 := set_screenshots [] a1 in
  let a3 := if is_capturing a2 && negb (bool_decide (capture_mode a2 = Some rapid))
            then set_is_capturing false a2 else a2 in
  (a3, w1).

(** [OverlayWidget(self, screen, mode, fixed_width, fixed_height)] *)
Definition new_overlay (screen : QScreen) (m : option CaptureMode)
    (width height : Z) : OverlayWidget :=
  {| screen_geometry := screen_geom screen;
     mode := m;
     fixed_width := width;
     fixed_height := height;
     is_drawing := false;
     update_timer := bool_decide (m = Some fixed);
     visible := false;
     closed := false |}.

(** The loop of lines 511-527 from screen [i] on; the boolean tells
    whether an exception left the loop. *)
Fixpoint create_overlay_loop (width height : Z) (i : nat) (scrs : list QScreen)
    (a : App) (w : World) : App * World * bool :=
  match scrs with
  | [] => (a, w, false)
  | screen :: rest =>
      match fault screen with
      | CtorRaises => (a, w, true)
      | f =>
          let id := length (widgets w) in
          let overlay := new_overlay screen (capture_mode a) width height in
          let w1 := set_widgets (widgets w ++ [overlay]) w in
          let a1 := set_overlays (overlays a ++ [id]) a in
          match f with
          | GrabRaises => (a1, w1, true)
          | _ =>
              let a2 := set_screenshots
                          (screenshots a1
                           ++ [(i, {| geometry := screen_geom screen;
                                      pixmap := framebuffer screen |})]) a1 in
              match f with
              | ShowRaises => (a2, w1, true)
              | _ =>
                  let w2 := set_widgets (alter show_overlay id (widgets w1)) w1 in
                  create_overlay_loop width height (S i) rest a2 w2
              end
          end
      end
  end.

(** Lines 500-538. *)
Definition _create_overlays (width height : Z) (a : App) (w : World) : App * World :=
  let '(a1, w1) := _cleanup_overlays a w in
  let a2 := set_screenshots [] (set_overlays [] a1) in
  let '(a3, w3, raised) := create_overlay_loop width height 0 (screens w1) a2 w1 in
  if raised then
    (set_is_overlay_operation_in_progress false a3, show w3)
  else
    let a4 := set_is_capturing true a3 in
    if bool_decide (capture_mode a4 = Some rapid)
    then (a4, emit (SingleShot 200 FinishCapture) w3)
    else (a4, w3).

(** The corners computed from two end points. *)
Record Bounds := { bx1 : Z; by1 : Z; bx2 : Z; by2 : Z }.
Definition bwidth (b : Bounds) : Z := bx2 b - bx1 b.
Definition bheight (b : Bounds) : Z := by2 b - by1 b.

(** Lines 265-269 of [capture_from_coordinates]. *)
Definition coordinates_bounds (begin_point end_point : QPoint.t) : Bounds :=
  {| bx1 := Z.min (QPoint.x begin_point) (QPoint.x end_point);
     by1 := Z.min (QPoint.y begin_point) (QPoint.y end_point);
     bx2 := Z.max (QPoint.x begin_point) (QPoint.x end_point);
     by2 := Z.max (QPoint.y begin_point) (QPoint.y end_point) |}.

(** Lines 564-573 of [finish_capture]. *)
Definition finish_bounds (global_begin global_end : QPoint.t) : Bounds :=
  let x1 := Z.min (QPoint.x global_begin) (QPoint.x global_end) in
  let y1 := Z.min (QPoint.y global_begin) (QPoint.y global_end) in
  let x2 := Z.max (QPoint.x global_begin) (QPoint.x global_end) in
  let y2 := Z.max (QPoint.y global_begin) (QPoint.y global_end) in
  let y2 := if QPoint.y global_end <? QPoint.y global_begin
            then QPoint.y global_end else y2 in
  {| bx1 := x1; by1 := y1; bx2 := x2; by2 := y2 |}.

(** [selection.save(filepath, "PNG")]: the file exists afterwards. *)
Definition save (filepath : string) (sel : QPixmap.t) (w : World) : World :=
  set_files ({[filepath]} ∪ files w) (emit (SavePixmap filepath (QPixmap.toImage sel)) w).

(** "Process according to output mode": lines 632-656 and, with the same
    text, lines 327-351. *)
Definition process_output (a : App) (x1 y1 width height : Z)
    (sel : QPixmap.t) (w : World) : World :=
  match output_mode a with
  | clipboard => emit (ClipboardSetImage (QPixmap.toImage sel)) w
  | fixed_location =>
      match fixed_location_path (files w) (save_location a) x1 y1 width height with
      | Some filepath => save filepath sel w
      | None => w
      end
  | new_location =>
      let w1 := emit (SaveFileDialog
                        (join (save_location a) (capture_name x1 y1 width height))) w in
      if bool_decide (dialog_reply w1 = EmptyString) then w1
      else save (dialog_reply w1) sel w1
  end.

(** Lines 549-690. *)
Definition finish_capture (a : App) (w : World) : App * World :=
  if QPoint.isNull (global_begin a) || QPoint.isNull (global_end a) then
    let a1 := set_is_overlay_operation_in_progress false a in
    let '(a2, w2) := _cleanup_overlays a1 w in
    (a2, show w2)
  else
    let a1 := set_last_capture_begin (Some (global_begin a)) a in
    let a2 := set_last_capture_end (Some (global_end a1)) a1 in
    let b := finish_bounds (global_begin a2) (global_end a2) in
    let x1 := bx1 b in
    let y1 := by1 b in
    let width := bwidth b in
    let height := bheight b in
    let '(a3, w3) :=
      if (10 <? width) && (10 <? height) then
        let painter := composite x1 y1 width height (screenshots a2) in
        let a' := set_last_capture_pixmap (Some (selection painter)) a2 in
        (a', process_output a' x1 y1 width height (selection painter)
               (emit (Composite (QRect.make x1 y1 width height) (ops painter)) w))
      else (a2, w) in
    let '(a4, w4) := _cleanup_overlays a3 w3 in
    let a5 := set_is_capturing false a4 in
    let a6 := set_global_end QPoint.null (set_global_begin QPoint.null a5) in
    let a7 := set_toggleFrameBtn_enabled true a6 in
    let a8 := set_is_overlay_operation_in_progress false a7 in
    (a8, show w4).

(** Lines 286-294: one [grabWindow] per screen, from index [i] on; [None]
    when a grab raises. *)
Fixpoint grab_screens (i : nat) (scrs : list QScreen) : option (list (nat * ScreenData)) :=
  match scrs with
  | [] => Some []
  | screen :: rest =>
      match fault screen with
      | GrabRaises => None
      | _ => cons (i, {| geometry := screen_geom screen;
                         pixmap := framebuffer screen |})
               <$> grab_screens (S i) rest
      end
  end.

(** Lines 260-359. *)
Definition capture_from_coordinates (begin_point end_point : QPoint.t)
    (a : App) (w : World) : App * World :=
  let b := coordinates_bounds begin_point end_point in
  let x1 := bx1 b in
  let y1 := by1 b in
  let width := bwidth b in
  let height := bheight b in
  if (10 <? width) && (10 <? height) then
    match grab_screens 0 (screens w) with
    | Some shots =>
        let painter := composite x1 y1 width height shots in
        (a, process_output a x1 y1 width height (selection painter)
              (emit (Composite (QRect.make x1 y1 width height) (ops painter)) w))
    | None => (a, w)
    end
  else (a, w).

(** Lines 236-258. *)
Definition start_rapid_capture (a : App) (w : World) : App * World :=
  if is_overlay_operation_in_progress a then (a, w)
  else
    match last_capture_begin a, last_capture_end a with
    | Some b, Some e =>
        let a1 := set_global_begin b a in
        let a2 := set_global_end e a1 in
        capture_from_coordinates (global_begin a2) (global_end a2) a2 w
    | _, _ => (a, w)
    end.

(** Lines 361-384; [width] and [height] are the numbers chosen in the two
    combo boxes. *)
Definition start_fixed_capture (width height : Z) (a : App) (w : World) : App * World :=
  if is_overlay_operation_in_progress a then (a, w)
  else
    let a1 := set_default_h height (set_default_w width a) in
    let w1 := emit (SaveConfig (sizes a1) (default_w a1) (default_h a1)
                               (save_location a1)) w in
    let a2 := set_capture_mode (Some fixed) a1 in
    let w2 := hide w1 in
    let a3 := set_is_overlay_operation_in_progress true a2 in
    (a3, emit (SingleShot 200 (CreateOverlays width height)) w2).

(** Lines 386-404. *)
Definition start_freehand_capture (a : App) (w : World) : App * World :=
  if is_overlay_operation_in_progress a then (a, w)
  else
    let a1 := set_capture_mode (Some freehand) a in
    let w1 := hide w in
    let a2 := set_is_overlay_operation_in_progress true a1 in
    (a2, emit (SingleShot 200 (CreateOverlays 800 600)) w1).

(** ** Event handlers of [OverlayWidget]

    [id] is the overlay that receives the event, [global_pos] is
    [QCursor.pos()], [left_button] tells whether the button is the left one and
    [escape] whether the key is [Qt.Key_Escape]. *)

(** Lines 974-1016. *)
Definition mousePressEvent (id : nat) (left_button : bool) (global_pos : QPoint.t)
    (a : App) (w : World) : App * World :=
  match widgets w !! id with
  | None => (a, w)
  | Some self =>
      if left_button && is_capturing a then
        let screen_geom := screen_geometry self in
        match mode self with
        | Some fixed =>
            let w1 := if update_timer self
                      then set_widgets (alter (set_update_timer false) id (widgets w)) w
                      else w in
            let local_x := QPoint.x global_pos - QRect.x screen_geom in
            let local_y := QPoint.y global_pos - QRect.y screen_geom in
            let rect := QRect.make (local_x - fixed_width self `div` 2)
                                   (local_y - fixed_height self `div` 2)
                                   (fixed_width self) (fixed_height self) in
            let a1 := set_global_begin
                        (QPoint.add (QRect.topLeft rect) (QRect.topLeft screen_geom)) a in
            let a2 := set_global_end
                        (QPoint.add (QRect.bottomRight rect) (QRect.topLeft screen_geom)) a1 in
            finish_capture a2 w1
        | Some freehand =>
            if QRect.contains screen_geom global_pos then
              let a1 := set_global_begin global_pos a in
              let a2 := set_global_end global_pos a1 in
              (a2, set_widgets (alter (set_is_drawing true) id (widgets w)) w)
            else (a, w)
        | _ => (a, w)
        end
      else (a, w)
  end.

(** Lines 1018-1040. *)
Definition mouseMoveEvent (id : nat) (global_pos : QPoint.t)
    (a : App) (w : World) : App * World :=
  match widgets w !! id with
  | None => (a, w)
  | Some self =>
      if is_capturing a then
        if (QPoint.x global_pos <? -10000) || (QPoint.y global_pos <? -10000) then (a, w)
        else if bool_decide (mode self = Some freehand) && is_drawing self
             then (set_global_end global_pos a, w)
             else (a, w)
      else (a, w)
  end.

(** Lines 1042-1073. *)
Definition mouseReleaseEvent (id : nat) (left_button : bool) (global_pos : QPoint.t)
    (a : App) (w : World) : App * World :=
  match widgets w !! id with
  | None => (a, w)
  | Some self =>
      if left_button && is_capturing a then
        if (QPoint.x global_pos <? -10000) || (QPoint.y global_pos <? -10000) then (a, w)
        else if bool_decide (mode self = Some freehand) && is_drawing self then
          let w1 := set_widgets (alter (set_is_drawing false) id (widgets w)) w in
          let a1 := set_global_end global_pos a in
          let width := Z.abs (QPoint.x (global_end a1) - QPoint.x (global_begin a1)) in
          let height := Z.abs (QPoint.y (global_end a1) - QPoint.y (global_begin a1)) in
          if (width <? 10) || (height <? 10) then
            let a2 := set_is_overlay_operation_in_progress false a1 in
            let '(a3, w3) := _cleanup_overlays a2 w1 in
            (a3, show w3)
          else finish_capture a1 w1
        else (a, w)
      else (a, w)
  end.

(** Lines 1075-1091. *)
Definition keyPressEvent (id : nat) (escape : bool) (a : App) (w : World) : App * World :=
  match widgets w !! id with
  | None => (a, w)
  | Some self =>
      if escape && is_capturing a then
        let w1 := if update_timer self
                  then set_widgets (alter (set_update_timer false) id (widgets w)) w
                  else w in
        let '(a2, w2) := _cleanup_overlays a w1 in
        let a3 := set_is_capturing false a2 in
        let a4 := set_is_overlay_operation_in_progress false a3 in
        (a4, show w2)
      else (a, w)
  end.

(** ** Sessions

    What the user and the timers do, one step at a time. *)
Inductive Step :=
| ClickFreehand
| ClickFixed (width height : Z)
| ClickRapid
| TimerCreateOverlays (width height : Z)
| MousePress (id : nat) (left_button : bool) (global_pos : QPoint.t)
| MouseMove (id : nat) (global_pos : QPoint.t)
| MouseRelease (id : nat) (left_button : bool) (global_pos : QPoint.t)
| KeyPress (id : nat) (escape : bool).

Definition step (s : Step) (st : App * World) : App * World :=
  let '(a, w) := st in
  match s with
  | ClickFreehand => start_freehand_capture a w
  | ClickFixed width height => start_fixed_capture width height a w
  | ClickRapid => start_rapid_capture a w
  | TimerCreateOverlays width height => _create_overlays width height a w
  | MousePress id left_button pos => mousePressEvent id left_button pos a w
  | MouseMove id pos => mouseMoveEvent id pos a w
  | MouseRelease id left_button pos => mouseReleaseEvent id left_button pos a w
  | KeyPress id escape => keyPressEvent id escape a w
  end.

Definition run (steps : list Step) (st : App * World) : App * World :=
  foldl (fun st s => step s st) st steps.

(** The state of [__init__]: no capture yet, main window shown. *)
Definition init (sizes : list Z) (default_w default_h : Z) (save_location : string) : App :=
  {| last_capture_begin := None;
     last_capture_end := None;
     is_capturing := false;
     capture_mode := None;
     global_begin := QPoint.null;
     global_end := QPoint.null;
     output_mode := clipboard;
     sizes := sizes;
     default_w := default_w;
     default_h := default_h;
     save_location := save_location;
     overlays := [];
     screenshots := [];
     last_capture_pixmap := None;
     is_overlay_operation_in_progress := false;
     toggleFrameBtn_enabled := false |}.

(** [set_output_mode] (lines 691-698). *)
Definition set_output_mode (m : OutputMode) (a : App) : App :=
  {| last_capture_begin := last_capture_begin a;
     last_capture_end := last_capture_end a;
     is_capturing := is_capturing a;
     capture_mode := capture_mode a;
     global_begin := global_begin a;
     global_end := global_end a;
     output_mode := m;
     sizes := sizes a;
     default_w := default_w a;
     default_h := default_h a;
     save_location := save_location a;
     overlays := overlays a;
     screenshots := screenshots a;
     last_capture_pixmap := last_capture_pixmap a;
     is_overlay_operation_in_progress := is_overlay_operation_in_progress a;
     toggleFrameBtn_enabled := toggleFrameBtn_enabled a |}.

(** The state the specification calls idle: the guard is clear, no overlay
    is referenced and the main window is shown. *)
Definition idle (a : App) (w : World) : Prop :=
  is_overlay_operation_in_progress a = false
  /\ overlays a = []
  /\ window_visible w = true.

(** Every overlay object created so far has been closed. *)
Definition all_closed (w : World) : Prop :=
  Forall (fun o => closed o = true) (widgets w).

(** The overlay [id] has been hidden and closed. *)
Definition torn_down (ws : list OverlayWidget) (id : nat) : Prop :=
  forall o, ws !! id = Some o -> closed o = true /\ visible o = false.

(** The stored last capture. *)
Definition last_capture (a : App) : option QPoint.t * option QPoint.t * option QPixmap.t :=
  (last_capture_begin a, last_capture_end a, last_capture_pixmap a).

(** ** Concrete environment used in the examples: two 40 x 30 screens side
    by side, the second one to the left of the origin. *)
Definition test_pixmap (w h base : Z) : QPixmap.t :=
  QPixmap.make w h (fun px py => Some (base + 100 * py + px)).

Definition test_screen (gx gy w h base : Z) (f : Fault) : QScreen :=
  {| screen_geom := QRect.make gx gy w h;
     framebuffer := test_pixmap w h base;
     fault := f |}.

Definition test_world (scrs : list QScreen) (fs : gset string) : World :=
  {| screens := scrs;
     widgets := [];
     window_visible := true;
     files := fs;
     dialog_reply := EmptyString;
     trace := [] |}.

Definition two_screens : list QScreen :=
  [test_screen 0 0 40 30 10000 NoFault; test_screen (-40) 0 40 30 20000 NoFault].

Definition test_app : App := init [768; 640; 640; 512; 480; 320] 800 600 "/tmp/shots".

(** One screen works, the other one fails while it is grabbed. *)
Definition faulty_screens : list QScreen :=
  [test_screen 0 0 40 30 10000 NoFault; test_screen (-40) 0 40 30 20000 GrabRaises].

(** A free-hand session that selects from (5, 5) to (25, 20). *)
Definition good_session : list Step :=
  [ClickFreehand; TimerCreateOverlays 800 600;
   MousePress 0 true (QPoint.make 5 5);
   MouseMove 0 (QPoint.make 12 9);
   MouseRelease 0 true (QPoint.make 25 20)].

(** A second free-hand session, from (7, 3) to (17, 25): 10 pixels wide. *)
Definition narrow_session : list Step :=
  [ClickFreehand; TimerCreateOverlays 800 600;
   MousePress 2 true (QPoint.make 7 3);
   MouseMove 2 (QPoint.make 10 9);
   MouseRelease 2 true (QPoint.make 17 25)].

(** A free-hand session given up with Escape after the press. *)
Definition escaped_session : list Step :=
  [ClickFreehand; TimerCreateOverlays 800 600;
   MousePress 2 true (QPoint.make 7 3);
   MouseMove 2 (QPoint.make 30 25);
   KeyPress 3 true].

(** Screenshots of the two screens, and of a third screen whose snapshot
    is smaller than its geometry. *)
Definition shot_right : ScreenData :=
  {| geometry := QRect.make 0 0 40 30; pixmap := test_pixmap 40 30 10000 |}.
Definition shot_left : ScreenData :=
  {| geometry := QRect.make (-40) 0 40 30; pixmap := test_pixmap 40 30 20000 |}.
Definition shot_short : ScreenData :=
  {| geometry := QRect.make 40 0 40 30; pixmap := test_pixmap 20 15 30000 |}.

Definition test_shots : list (nat * ScreenData) :=
  [(0%nat, shot_right); (1%nat, shot_left)].

(** A fixed-location setup in which the plain name and the suffix [_1]
    are taken. *)
Definition taken_files : gset string :=
  {[ "/tmp/shots/capture_5_5_100x100.png"%string;
     "/tmp/shots/capture_5_5_100x100_1.png"%string ]}.

(** The application after a successful capture. *)
Definition captured : App * World :=
  run good_session (test_app, test_world two_screens ∅).

(** ** Auxiliary notions for the statements *)

(** The span of a rectangle after Qt's normalisation of negative extents:
    the set of pixels [intersected] works with. *)
Definition spans (r : QRect.t) (px py : Z) : Prop :=
  QRect.lo (QRect.x1 r) (QRect.x2 r) <= px <= QRect.hi (QRect.x1 r) (QRect.x2 r)
  /\ QRect.lo (QRect.y1 r) (QRect.y2 r) <= py <= QRect.hi (QRect.y1 r) (QRect.y2 r).

(** Two geometries do not overlap ([not a.intersects(b)]). *)
Definition disjoint_rects (r s : QRect.t) : bool :=
  QRect.isEmpty (QRect.intersected r s).

(** The geometries of a list of screenshots are pairwise non-overlapping. *)
Fixpoint pairwise_disjoint (shots : list (nat * ScreenData)) : bool :=
  match shots with
  | [] => true
  | item :: rest =>
      forallb (fun other => disjoint_rects (geometry item.2) (geometry other.2)) rest
      && pairwise_disjoint rest
  end.

(** The iteration for [item] reaches [painter.drawPixmap]. *)
Definition blits (selection_rect : QRect.t) (item : nat * ScreenData) : bool :=
  let overlap := QRect.intersected selection_rect (geometry item.2) in
  negb (QPixmap.isNull (pixmap item.2))
  && negb (QRect.isEmpty overlap)
  && src_valid (QRect.x overlap - QRect.x (geometry item.2))
               (QRect.y overlap - QRect.y (geometry item.2))
               overlap (pixmap item.2).

(** What the iteration for [item] appends to the painter's log. *)
Definition logged (selection_rect : QRect.t) (x1 y1 : Z)
    (item : nat * ScreenData) : list PaintOp :=
  let overlap := QRect.intersected selection_rect (geometry item.2) in
  if QPixmap.isNull (pixmap item.2) then [InvalidPixmap item.1]
  else if QRect.isEmpty overlap then []
  else if blits selection_rect item then
    [Blit item.1 (QRect.x overlap - x1) (QRect.y overlap - y1)
          (QRect.x overlap - QRect.x (geometry item.2))
          (QRect.y overlap - QRect.y (geometry item.2))
          (QRect.width overlap) (QRect.height overlap)]
  else [OutOfBounds item.1].

(** The names the specification lists for a capture, in the order in
    which they are to be tried: the plain name first, then the suffixes
    [_1], [_2], ... *)
Definition candidate_name (x1 y1 width height : Z) (k : nat) : string :=
  match k with
  | O => capture_name x1 y1 width height
  | S _ => numbered_name x1 y1 width height (Z.of_nat k)
  end.

Definition candidate (save_location : string) (x1 y1 width height : Z) (k : nat) : string :=
  join save_location (candidate_name x1 y1 width height k).

(** What [join] puts in front of a relative name. *)
Definition dir_prefix (a : string) : string :=
  if bool_decide (a = EmptyString) || endswith_sep a then a else (a +:+ "/")%string.

(** Two rasters of the same size with the same pixels. *)
Definition same_pixels (p q : QPixmap.t) : Prop :=
  QPixmap.width p = QPixmap.width q
  /\ QPixmap.height p = QPixmap.height q
  /\ forall px py, QPixmap.data p px py = QPixmap.data q px py.

(** The selection pixmap [p] shows, pixel for pixel, the crop of the
    buffer of [sd] for the selection [(x1, y1, width, height)], the screen
    having its origin at [(gx, gy)]. *)
Definition shows_crop (x1 y1 width height gx gy : Z) (sd : ScreenData)
    (p : QPixmap.t) : Prop :=
  forall px py, 0 <= px < width -> 0 <= py < height ->
    QPixmap.data p px py
    = QPixmap.pixelAt (pixmap sd) (px + (x1 - gx)) (py + (y1 - gy)).

(** A blit reads inside the buffer of the screen it names. *)
Definition blit_in_bounds (shots : list (nat * ScreenData)) (o : PaintOp) : Prop :=
  match o with
  | Blit i _ _ src_x src_y w h =>
      exists sd, (i, sd) ∈ shots
        /\ 0 <= src_x /\ 0 <= src_y /\ 0 < w /\ 0 < h
        /\ src_x + w <= QPixmap.width (pixmap sd)
        /\ src_y + h <= QPixmap.height (pixmap sd)
  | _ => True
  end.

(** ** Further parts of the program *)

(** What a call that may raise [ZeroDivisionError] or run a loop gives:
    a value, the exception, or no answer within the iterations allowed. *)
Inductive Outcome (A : Type) :=
| Returns (a : A)
| ZeroDivisionError
| OutOfFuel.
Arguments Returns {A} a.
Arguments ZeroDivisionError {A}.
Arguments OutOfFuel {A}.

(** The loop [while b: a, b = b, a % b] of [gcd] (lines 43-46); Python's
    [%] takes the sign of the divisor, as [Z.modulo] does. *)
Fixpoint gcd_loop (fuel : nat) (a b : Z) : option Z :=
  match fuel with
  | O => None
  | S fuel' => if b =? 0 then Some a else gcd_loop fuel' b (a `mod` b)
  end.

(** [gcd]: the absolute value of [b] shrinks in every iteration, so
    [|b| + 1] iterations are enough ([gcd_spec]). *)
Definition gcd (a b : Z) : option Z := gcd_loop (S (Z.abs_nat b)) a b.

(** [simplify_ratio] (lines 48-50); [//] is the floor division [Z.div]. *)
Definition simplify_ratio (w h : Z) : Outcome string :=
  match gcd w h with
  | None => OutOfFuel
  | Some divisor =>
      if divisor =? 0 then ZeroDivisionError
      else Returns (pretty (w `div` divisor) +:+ ":" +:+ pretty (h `div` divisor))%string
  end.

(** The configuration file (lines 13-41).  A JSON value as [json.load]
    returns it; the members of an object are the items of the Python
    dictionary, whose keys are distinct. *)
#[warnings="-register-all"]
Inductive Json :=
| JNull
| JNum (n : Z)
| JStr (s : string)
| JArr (items : list Json)
| JObj (members : list (string * Json)).

(** [config.json]: absent, present but not readable as JSON, or holding a
    JSON value. *)
Inductive ConfigFile :=
| NoFile
| Unreadable
| Parsed (j : Json).

Definition DEFAULT_SIZES : list Z := [768; 640; 640; 512; 480; 320].

(** [config.get(key, default)] *)
Fixpoint dict_get (key : string) (default : Json) (members : list (string * Json)) : Json :=
  match members with
  | [] => default
  | (k, v) :: rest => if bool_decide (k = key) then v else dict_get key default rest
  end.

(** [load_config] (lines 17-32); [cwd] is [os.getcwd()].  A value that is
    not an object has no [get]: the exception handler returns the
    defaults. *)
Definition load_config (file : ConfigFile) (cwd : string) : Json * Json * Json * Json :=
  let defaults := (JArr (JNum <$> DEFAULT_SIZES), JNum 800, JNum 600, JStr cwd) in
  match file with
  | NoFile => defaults
  | Unreadable => defaults
  | Parsed (JObj config) =>
      (dict_get "sizes" (JArr (JNum <$> DEFAULT_SIZES)) config,
       dict_get "default_w" (JNum 800) config,
       dict_get "default_h" (JNum 600) config,
       dict_get "save_location" (JStr cwd) config)
  | Parsed _ => defaults
  end.

(** [save_config] (lines 34-41); when the file cannot be opened for
    writing the exception is caught and the file stays as it is. *)
Definition save_config (writable : bool) (sizes : list Z) (default_w default_h : Z)
    (save_location : string) (file : ConfigFile) : ConfigFile :=
  if writable then
    Parsed (JObj [("sizes"%string, JArr (JNum <$> sizes));
                  ("default_w"%string, JNum default_w);
                  ("default_h"%string, JNum default_h);
                  ("save_location"%string, JStr save_location)])
  else file.

(** The rectangle that [SimpleRectangleOverlay.paintEvent] (lines 753-763)
    and the free-hand branch of [OverlayWidget.paintEvent] (lines 931-941)
    draw on the overlay of a screen, in the coordinates of that overlay. *)
Definition preview_rect (screen_geom : QRect.t) (begin_point end_point : QPoint.t) : QRect.t :=
  let begin_local := QPoint.sub begin_point (QRect.topLeft screen_geom) in
  let end_local := QPoint.sub end_point (QRect.topLeft screen_geom) in
  QRect.make (Z.min (QPoint.x begin_local) (QPoint.x end_local))
             (Z.min (QPoint.y begin_local) (QPoint.y end_local))
             (Z.abs (QPoint.x end_local - QPoint.x begin_local))
             (Z.abs (QPoint.y end_local - QPoint.y begin_local)).

(** The frame that the fixed branch of [OverlayWidget.paintEvent] (lines
    885-895) draws around the cursor. *)
Definition fixed_preview_rect (screen_geom : QRect.t) (fixed_width fixed_height : Z)
    (global_pos : QPoint.t) : QRect.t :=
  let local_x := QPoint.x global_pos - QRect.x screen_geom in
  let local_y := QPoint.y global_pos - QRect.y screen_geom in
  QRect.make (local_x - fixed_width `div` 2) (local_y - fixed_height `div` 2)
             fixed_width fixed_height.

(** [QRect.translated(p)] *)
Definition translated (r : QRect.t) (p : QPoint.t) : QRect.t :=
  QRect.corners (QRect.x1 r + QPoint.x p) (QRect.y1 r + QPoint.y p)
                (QRect.x2 r + QPoint.x p) (QRect.y2 r + QPoint.y p).

(** Where the paint handlers put the size text of a rectangle on an
    overlay of the given width and height (lines 780-786, 911-917 and
    957-963); [right()] and [bottom()] are the stored corner [x2], [y2]. *)
Definition text_position (rect : QRect.t) (width height : Z) : Z * Z :=
  let text_x := if QRect.x2 rect + 100 <? width
                then QRect.x2 rect + 5 else QRect.x1 rect - 100 in
  let text_y := if QRect.y2 rect + 30 <? height
                then QRect.y2 rect + 20 else QRect.y1 rect - 10 in
  (Z.max 0 (Z.min text_x (width - 100)), Z.max 15 (Z.min text_y (height - 5))).

(** The background of the size text, for a text of [len] characters
    (lines 789, 920 and 966). *)
Definition text_rect (text_x text_y len : Z) : QRect.t :=
  QRect.make (text_x - 2) (text_y - 15) (len * 8 + 4) 20.

(** The snapshot of a screen has the size of the screen's geometry. *)
Definition buffer_matches (sd : ScreenData) : Prop :=
  0 < QPixmap.width (pixmap sd) /\ 0 < QPixmap.height (pixmap sd)
  /\ geometry sd = QRect.make (QRect.x (geometry sd)) (QRect.y (geometry sd))
                              (QPixmap.width (pixmap sd)) (QPixmap.height (pixmap sd)).

(** The screenshots [_create_overlays] stores for a list of screens,
    numbered from [i]. *)
Fixpoint screenshots_of (i : nat) (scrs : list QScreen) : list (nat * ScreenData) :=
  match scrs with
  | [] => []
  | screen :: rest =>
      (i, {| geometry := screen_geom screen; pixmap := framebuffer screen |})
        :: screenshots_of (S i) rest
  end.

(** The main window is hidden only while the guard is set. *)
Definition hidden_only_when_busy (st : App * World) : Prop :=
  window_visible st.2 = false -> is_overlay_operation_in_progress st.1 = true.

(** The stored last capture is consistent: the two end points are set
    together, neither is the null point, and a stored image comes with
    stored end points. *)
Definition last_capture_consistent (a : App) : Prop :=
  (last_capture_begin a = None <-> last_capture_end a = None)
  /\ (forall p, last_capture_begin a = Some p -> QPoint.isNull p = false)
  /\ (forall p, last_capture_end a = Some p -> QPoint.isNull p = false)
  /\ (last_capture_pixmap a <> None -> last_capture_begin a <> None).

(** The steps that are events of an overlay, and the three buttons. *)
Definition is_overlay_event (s : Step) : bool :=
  match s with
  | MousePress _ _ _ | MouseMove _ _ | MouseRelease _ _ _ | KeyPress _ _ => true
  | _ => false
  end.

Definition is_start_button (s : Step) : bool :=
  match s with
  | ClickFreehand | ClickFixed _ _ | ClickRapid => true
  | _ => false
  end.

Definition is_mouse_move (s : Step) : bool :=
  match s with
  | MouseMove _ _ => true
  | _ => false
  end.

(** The application with the free-hand overlays up, and with the
    overlays of a fixed 20 x 16 capture up. *)
Definition armed_freehand : App * World :=
  run [ClickFreehand; TimerCreateOverlays 800 600] (test_app, test_world two_screens ∅).

Definition armed_fixed : App * World :=
  run [ClickFixed 20 16; TimerCreateOverlays 20 16] (test_app, test_world two_screens ∅).

(** The free-hand state with a selection from (5, 5) to (25, 20). *)
Definition selected : App :=
  set_global_end (QPoint.make 25 20) (set_global_begin (QPoint.make 5 5) armed_freehand.1).

(** A non-editable [QComboBox]: its item texts and the current index
    ([None] for -1, no current item). *)
Record QComboBox := { items : list string; currentIndex : option nat }.

(** A new combo box filled with [addItems(texts)]: the first item, if
    there is one, becomes the current item. *)
Definition combo_with (texts : list string) : QComboBox :=
  {| items := texts; currentIndex := match texts with [] => None | _ => Some 0%nat end |}.

(** [findText(text)]: the index of the first item with that text. *)
Fixpoint findText (text : string) (texts : list string) : option nat :=
  match texts with
  | [] => None
  | t :: rest => if bool_decide (t = text) then Some 0%nat else S <$> findText text rest
  end.

(** [currentText()]: the text of the current item, or the empty string. *)
Definition currentText (c : QComboBox) : string :=
  match currentIndex c with
  | Some i => default EmptyString (items c !! i)
  | None => EmptyString
  end.

(** [setCurrentText(text)]: selects the first item with that text and
    does nothing when there is none. *)
Definition setCurrentText (text : string) (c : QComboBox) : QComboBox :=
  match findText text (items c) with
  | Some i => {| items := items c; currentIndex := Some i |}
  | None => c
  end.

(** [widthInput] or [heightInput] as [initUI] sets it up (lines 152-154
    and 164-166): one item per size, then [setCurrentText(str(default))]. *)
Definition size_input (sizes : list Z) (default : Z) : QComboBox :=
  setCurrentText (pretty default) (combo_with (pretty <$> sizes)).

(** [swap_dimensions] (lines 226-234) on the pair [(widthInput,
    heightInput)]. *)
Definition swap_dimensions (inputs : QComboBox * QComboBox) : QComboBox * QComboBox :=
  let w := currentText inputs.1 in
  let h := currentText inputs.2 in
  (setCurrentText h inputs.1, setCurrentText w inputs.2).

(** * Properties *)

(** ** Rectangles *)

Lemma covers_intersected r s px py :
  QRect.covers (QRect.intersected r s) px py ->
  spans r px py /\ spans s px py
  /\ QRect.isNull r = false /\ QRect.isNull s = false.
Proof.
  unfold QRect.intersected, spans.
  set (l1 := QRect.lo (QRect.x1 r) _). set (r1 := QRect.hi (QRect.x1 r) _).
  set (l2 := QRect.lo (QRect.x1 s) _). set (r2 := QRect.hi (QRect.x1 s) _).
  set (t1 := QRect.lo (QRect.y1 r) _). set (b1 := QRect.hi (QRect.y1 r) _).
  set (t2 := QRect.lo (QRect.y1 s) _). set (b2 := QRect.hi (QRect.y1 s) _).
  destruct (QRect.isNull r); [unfold QRect.covers; simpl; lia|].
  destruct (QRect.isNull s); [unfold QRect.covers; simpl; lia|].
  simpl.
  destruct (_ || _); [unfold QRect.covers; simpl; lia|].
  destruct (_ || _); unfold QRect.covers; simpl; lia.
Qed.

Lemma spans_intersected r s px py :
  QRect.isNull r = false -> QRect.isNull s = false ->
  spans r px py -> spans s px py ->
  QRect.covers (QRect.intersected r s) px py.
Proof.
  unfold QRect.intersected, spans. intros -> -> [Hx1 Hy1] [Hx2 Hy2]. simpl.
  set (l1 := QRect.lo (QRect.x1 r) _) in *. set (r1 := QRect.hi (QRect.x1 r) _) in *.
  set (l2 := QRect.lo (QRect.x1 s) _) in *. set (r2 := QRect.hi (QRect.x1 s) _) in *.
  set (t1 := QRect.lo (QRect.y1 r) _) in *. set (b1 := QRect.hi (QRect.y1 r) _) in *.
  set (t2 := QRect.lo (QRect.y1 s) _) in *. set (b2 := QRect.hi (QRect.y1 s) _) in *.
  destruct (Z.ltb_spec r2 l1); [lia|].
  destruct (Z.ltb_spec r1 l2); [lia|]. simpl.
  destruct (Z.ltb_spec b2 t1); [lia|].
  destruct (Z.ltb_spec b1 t2); [lia|]. simpl.
  unfold QRect.covers; simpl. lia.
Qed.

Lemma covers_nonempty r px py : QRect.covers r px py -> QRect.isEmpty r = false.
Proof.
  unfold QRect.covers, QRect.isEmpty. intros [? ?].
  apply orb_false_intro; apply Z.ltb_ge; lia.
Qed.

Lemma nonempty_covers r :
  QRect.isEmpty r = false -> QRect.covers r (QRect.x1 r) (QRect.y1 r).
Proof.
  unfold QRect.covers, QRect.isEmpty. intros [H1 H2]%orb_false_elim.
  apply Z.ltb_ge in H1, H2. lia.
Qed.

Lemma nonempty_extent r :
  QRect.isEmpty r = false -> 0 < QRect.width r /\ 0 < QRect.height r.
Proof.
  unfold QRect.isEmpty, QRect.width, QRect.height. intros [H1 H2]%orb_false_elim.
  apply Z.ltb_ge in H1, H2. lia.
Qed.

(** The parts of a selection that lie on two non-overlapping geometries
    share no pixel. *)
Lemma overlaps_disjoint sel ga gb px py :
  disjoint_rects ga gb = true ->
  QRect.covers (QRect.intersected sel ga) px py ->
  QRect.covers (QRect.intersected sel gb) px py ->
  False.
Proof.
  unfold disjoint_rects. intros Hd Ha Hb.
  apply covers_intersected in Ha as (_ & Ha & _ & Hna).
  apply covers_intersected in Hb as (_ & Hb & _ & Hnb).
  pose proof (spans_intersected ga gb px py Hna Hnb Ha Hb) as Hc.
  apply covers_nonempty in Hc. congruence.
Qed.

Lemma disjoint_rects_sym r s : disjoint_rects r s = disjoint_rects s r.
Proof.
  unfold disjoint_rects.
  destruct (QRect.isEmpty (QRect.intersected r s)) eqn:E1,
           (QRect.isEmpty (QRect.intersected s r)) eqn:E2; try reflexivity.
  - apply nonempty_covers in E2. apply covers_intersected in E2 as (Hs & Hr & Hns & Hnr).
    pose proof (covers_nonempty _ _ _ (spans_intersected r s _ _ Hnr Hns Hr Hs)). congruence.
  - apply nonempty_covers in E1. apply covers_intersected in E1 as (Hr & Hs & Hnr & Hns).
    pose proof (covers_nonempty _ _ _ (spans_intersected s r _ _ Hns Hnr Hs Hr)). congruence.
Qed.

(** A rectangle with positive extent that lies inside a geometry is its
    own intersection with it. *)
Lemma intersected_inside x y w h gx gy gw gh :
  0 < w -> 0 < h ->
  gx <= x -> x + w <= gx + gw -> gy <= y -> y + h <= gy + gh ->
  QRect.intersected (QRect.make x y w h) (QRect.make gx gy gw gh) = QRect.make x y w h.
Proof.
  intros. unfold QRect.intersected, QRect.make, QRect.isNull, QRect.lo, QRect.hi. simpl.
  repeat match goal with
         | |- context [ (?a =? ?b) ] => destruct (Z.eqb_spec a b); try lia
         | |- context [ (?a <? ?b) ] => destruct (Z.ltb_spec a b); try lia
         end; simpl.
  f_equal; lia.
Qed.

(** ** The compositing loop *)

Section Compositing.
Variables (x1 y1 : Z) (rect : QRect.t).

Local Abbreviation iter := (composite_screen x1 y1 rect).

(** What an iteration does to the selection pixmap. *)
Lemma composite_screen_selection P item :
  selection (iter P item) =
    if blits rect item then
      let overlap := QRect.intersected rect (geometry item.2) in
      QPixmap.drawPixmap (selection P)
        (QRect.x overlap - x1) (QRect.y overlap - y1) (pixmap item.2)
        (QRect.x overlap - QRect.x (geometry item.2))
        (QRect.y overlap - QRect.y (geometry item.2))
        (QRect.width overlap) (QRect.height overlap)
    else selection P.
Proof.
  unfold composite_screen, blits.
  destruct (QPixmap.isNull _); simpl; [done|].
  destruct (QRect.isEmpty _); simpl; [done|].
  by destruct (src_valid _ _ _ _).
Qed.

(** The pixels an iteration leaves in the selection pixmap. *)
Lemma composite_screen_data P item px py :
  QPixmap.data (selection (iter P item)) px py =
    let overlap := QRect.intersected rect (geometry item.2) in
    if blits rect item
       && bool_decide (QRect.covers overlap (px + x1) (py + y1))
    then over (QPixmap.pixelAt (pixmap item.2)
                 (px + x1 - QRect.x (geometry item.2))
                 (py + y1 - QRect.y (geometry item.2)))
              (QPixmap.data (selection P) px py)
    else QPixmap.data (selection P) px py.
Proof.
  rewrite composite_screen_selection. cbv zeta.
  destruct (blits rect item) eqn:Hb; simpl; [|done].
  unfold blits in Hb. apply andb_prop in Hb as [[_ Hne]%andb_prop _].
  apply negb_true_iff, nonempty_extent in Hne as [Hw Hh].
  set (ov := QRect.intersected rect (geometry item.2)) in *.
  destruct (Z.leb_spec (QRect.width ov) 0); [lia|].
  destruct (Z.leb_spec (QRect.height ov) 0); [lia|].
  unfold QRect.covers, QRect.x, QRect.y, QRect.width, QRect.height in *.
  case_bool_decide as Hc.
  - destruct Hc as [[? ?] [? ?]].
    destruct (Z.leb_spec (QRect.x1 ov - x1) px); [|lia].
    destruct (Z.ltb_spec px (QRect.x1 ov - x1 + (QRect.x2 ov - QRect.x1 ov + 1))); [|lia].
    destruct (Z.leb_spec (QRect.y1 ov - y1) py); [|lia].
    destruct (Z.ltb_spec py (QRect.y1 ov - y1 + (QRect.y2 ov - QRect.y1 ov + 1))); [|lia].
    simpl. do 2 f_equal; lia.
  - destruct (Z.leb_spec (QRect.x1 ov - x1) px); [|done].
    destruct (Z.ltb_spec px (QRect.x1 ov - x1 + (QRect.x2 ov - QRect.x1 ov + 1))); [|done].
    destruct (Z.leb_spec (QRect.y1 ov - y1) py); [|done].
    destruct (Z.ltb_spec py (QRect.y1 ov - y1 + (QRect.y2 ov - QRect.y1 ov + 1))); [|done].
    exfalso. apply Hc. lia.
Qed.

Lemma composite_screen_size P item :
  QPixmap.width (selection (iter P item)) = QPixmap.width (selection P)
  /\ QPixmap.height (selection (iter P item)) = QPixmap.height (selection P).
Proof. rewrite composite_screen_selection. by destruct (blits rect item). Qed.

Lemma composite_screen_ext P Q item :
  same_pixels (selection P) (selection Q) ->
  same_pixels (selection (iter P item)) (selection (iter Q item)).
Proof.
  intros (Hw & Hh & Hd). unfold same_pixels.
  destruct (composite_screen_size P item) as [-> ->].
  destruct (composite_screen_size Q item) as [-> ->].
  repeat split; [done..|].
  intros px py. rewrite !composite_screen_data. cbv zeta. rewrite Hd.
  by destruct (_ && _).
Qed.

Lemma composite_fold_ext P Q shots :
  same_pixels (selection P) (selection Q) ->
  same_pixels (selection (foldl iter P shots)) (selection (foldl iter Q shots)).
Proof.
  revert P Q. induction shots as [|item shots IH]; intros P Q H; simpl; [done|].
  by apply IH, composite_screen_ext.
Qed.

(** Iterations for two non-overlapping geometries commute. *)
Lemma composite_screen_comm P a b :
  disjoint_rects (geometry a.2) (geometry b.2) = true ->
  same_pixels (selection (iter (iter P a) b)) (selection (iter (iter P b) a)).
Proof.
  intros Hd. unfold same_pixels. repeat split.
  - destruct (composite_screen_size (iter P a) b) as [-> _].
    destruct (composite_screen_size (iter P b) a) as [-> _].
    destruct (composite_screen_size P a) as [-> _].
    by destruct (composite_screen_size P b) as [-> _].
  - destruct (composite_screen_size (iter P a) b) as [_ ->].
    destruct (composite_screen_size (iter P b) a) as [_ ->].
    destruct (composite_screen_size P a) as [_ ->].
    by destruct (composite_screen_size P b) as [_ ->].
  - intros px py. rewrite !composite_screen_data. cbv zeta.
    destruct (blits rect a); destruct (blits rect b); simpl; try done.
    do 2 case_bool_decide; try done.
    exfalso. eauto using overlaps_disjoint.
Qed.

Lemma composite_fold_size P shots :
  QPixmap.width (selection (foldl iter P shots)) = QPixmap.width (selection P)
  /\ QPixmap.height (selection (foldl iter P shots)) = QPixmap.height (selection P).
Proof.
  revert P. induction shots as [|item shots IH]; intros P; simpl; [done|].
  destruct (IH (iter P item)) as [-> ->]. apply composite_screen_size.
Qed.

(** An iteration that does not reach [drawPixmap] leaves the pixmap as
    it is. *)
Lemma composite_screen_skip P item :
  blits rect item = false -> selection (iter P item) = selection P.
Proof. intros H. by rewrite composite_screen_selection, H. Qed.

Lemma composite_fold_skip P shots :
  Forall (fun item => blits rect item = false) shots ->
  selection (foldl iter P shots) = selection P.
Proof.
  revert P. induction shots as [|item shots IH]; intros P H; simpl; [done|].
  inversion H as [|? ? H1 H2]; subst.
  rewrite IH by done. by apply composite_screen_skip.
Qed.

(** The pixmap after the loop depends on the painter only through its
    pixmap. *)
Lemma composite_fold_selection P Q shots :
  selection P = selection Q ->
  selection (foldl iter P shots) = selection (foldl iter Q shots).
Proof.
  revert P Q. induction shots as [|item shots IH]; intros P Q H; simpl; [done|].
  apply IH. rewrite !composite_screen_selection, H. done.
Qed.
End Compositing.

Lemma same_pixels_refl p : same_pixels p p.
Proof. by repeat split. Qed.

Lemma same_pixels_trans p q r : same_pixels p q -> same_pixels q r -> same_pixels p r.
Proof.
  intros (? & ? & H1) (? & ? & H2). repeat split; [congruence..|].
  intros px py. by rewrite H1.
Qed.

Lemma toImage_ext p q :
  QPixmap.width p = QPixmap.width q ->
  QPixmap.height p = QPixmap.height q ->
  (forall px py, 0 <= px < QPixmap.width p -> 0 <= py < QPixmap.height p ->
                 QPixmap.pixelAt p px py = QPixmap.pixelAt q px py) ->
  QPixmap.toImage p = QPixmap.toImage q.
Proof.
  intros Hw Hh Hd. unfold QPixmap.toImage. rewrite <- Hw, <- Hh.
  apply list_fmap_ext. intros j py [-> Hj]%lookup_seqZ.
  apply list_fmap_ext. intros k px [-> Hk]%lookup_seqZ.
  apply Hd; lia.
Qed.

Lemma pixelAt_inside p px py :
  0 <= px < QPixmap.width p -> 0 <= py < QPixmap.height p ->
  QPixmap.pixelAt p px py = QPixmap.data p px py.
Proof.
  intros. unfold QPixmap.pixelAt, QPixmap.inside.
  destruct (Z.leb_spec 0 px); [|lia]. destruct (Z.ltb_spec px (QPixmap.width p)); [|lia].
  destruct (Z.leb_spec 0 py); [|lia]. by destruct (Z.ltb_spec py (QPixmap.height p)); [|lia].
Qed.

(** Rasters with the same pixels render to the same image. *)
Lemma same_pixels_toImage p q : same_pixels p q -> QPixmap.toImage p = QPixmap.toImage q.
Proof.
  intros (Hw & Hh & Hd). apply toImage_ext; [done..|].
  intros px py _ _. unfold QPixmap.pixelAt, QPixmap.inside. by rewrite Hw, Hh, Hd.
Qed.

Lemma over_idem c : over c c = c.
Proof. by destruct c. Qed.

Lemma over_transparent c : over c None = c.
Proof. by destruct c. Qed.

(** ** Order of the screens *)

Lemma pairwise_disjoint_cons item rest :
  pairwise_disjoint (item :: rest) = true <->
  (forall other, other ∈ rest ->
                 disjoint_rects (geometry item.2) (geometry other.2) = true)
  /\ pairwise_disjoint rest = true.
Proof.
  simpl. rewrite andb_true_iff, forallb_forall.
  split; intros [H1 H2]; split; try done; intros other Ho; apply H1.
  - by apply list_elem_of_In.
  - by apply list_elem_of_In.
Qed.

Lemma pairwise_disjoint_perm shots shots' :
  shots ≡ₚ shots' -> pairwise_disjoint shots = true -> pairwise_disjoint shots' = true.
Proof.
  induction 1 as [|a l l' Hp IH|a b l|l l' l'' _ IH1 _ IH2]; intros H.
  - done.
  - apply pairwise_disjoint_cons in H as [H1 H2]. apply pairwise_disjoint_cons.
    split; [|by apply IH]. intros other Ho. apply H1. by rewrite Hp.
  - apply pairwise_disjoint_cons in H as [H1 H2].
    apply pairwise_disjoint_cons in H2 as [H2 H3].
    apply pairwise_disjoint_cons. split.
    + intros other [->|Ho]%elem_of_cons.
      * rewrite disjoint_rects_sym. apply H1. by left.
      * by apply H2.
    + apply pairwise_disjoint_cons. split; [|done].
      intros other Ho. apply H1. by right.
  - by apply IH2, IH1.
Qed.

Lemma composite_fold_perm x1 y1 rect shots shots' :
  shots ≡ₚ shots' -> pairwise_disjoint shots = true ->
  forall P,
    same_pixels (selection (foldl (composite_screen x1 y1 rect) P shots))
                (selection (foldl (composite_screen x1 y1 rect) P shots')).
Proof.
  induction 1 as [|a l l' Hp IH|a b l|l l' l'' Hp1 IH1 Hp2 IH2]; intros H P; simpl.
  - apply same_pixels_refl.
  - apply pairwise_disjoint_cons in H as [_ H]. by apply IH.
  - apply pairwise_disjoint_cons in H as [H _].
    apply composite_fold_ext, composite_screen_comm, H. by left.
  - eapply same_pixels_trans; [by apply IH1|].
    apply IH2. by eapply pairwise_disjoint_perm.
Qed.

(** C7.  When the geometries of the screens are pairwise non-overlapping,
    the composited image is the same for every order in which the loop
    visits the screens. *)
Theorem composite_order_independent x1 y1 width height shots shots' :
  pairwise_disjoint shots = true ->
  shots ≡ₚ shots' ->
  QPixmap.toImage (selection (composite x1 y1 width height shots))
  = QPixmap.toImage (selection (composite x1 y1 width height shots')).
Proof.
  intros Hd Hp. apply same_pixels_toImage. unfold composite.
  by apply composite_fold_perm.
Qed.

(** ** A selection inside one screen *)

Section SingleMonitor.
Variables (x1 y1 width height : Z) (i : nat) (sd : ScreenData) (gx gy : Z).

Local Abbreviation rect := (QRect.make x1 y1 width height).
Local Abbreviation iter := (composite_screen x1 y1 rect).
Local Abbreviation cropped := (shows_crop x1 y1 width height gx gy sd).

Hypothesis width_pos : 0 < width.
Hypothesis height_pos : 0 < height.
Hypothesis buffer_size :
  geometry sd = QRect.make gx gy (QPixmap.width (pixmap sd)) (QPixmap.height (pixmap sd)).
Hypothesis left_in : gx <= x1.
Hypothesis right_in : x1 + width <= gx + QPixmap.width (pixmap sd).
Hypothesis top_in : gy <= y1.
Hypothesis bottom_in : y1 + height <= gy + QPixmap.height (pixmap sd).

Lemma containing_overlap : QRect.intersected rect (geometry sd) = rect.
Proof. rewrite buffer_size. by apply intersected_inside. Qed.

Lemma containing_blits : blits rect (i, sd) = true.
Proof.
  unfold blits. simpl. rewrite containing_overlap, buffer_size.
  unfold QPixmap.isNull, src_valid, QRect.isEmpty, QRect.make,
    QRect.x, QRect.y, QRect.width, QRect.height. simpl.
  repeat match goal with
         | |- context [ (?a <=? ?b) ] => destruct (Z.leb_spec a b); try lia
         | |- context [ (?a <? ?b) ] => destruct (Z.ltb_spec a b); try lia
         end; done.
Qed.

Lemma containing_covers px py :
  QRect.covers rect (px + x1) (py + y1) <-> 0 <= px < width /\ 0 <= py < height.
Proof. unfold QRect.covers, QRect.make. simpl. lia. Qed.

Lemma containing_data P px py :
  0 <= px < width -> 0 <= py < height ->
  QPixmap.data (selection (iter P (i, sd))) px py
  = over (QPixmap.pixelAt (pixmap sd) (px + (x1 - gx)) (py + (y1 - gy)))
         (QPixmap.data (selection P) px py).
Proof.
  intros Hx Hy. rewrite composite_screen_data. cbv zeta.
  rewrite containing_blits. simpl. rewrite containing_overlap.
  rewrite bool_decide_eq_true_2 by (by apply containing_covers).
  rewrite buffer_size. unfold QRect.x, QRect.y. simpl. do 2 f_equal; lia.
Qed.

Lemma cropped_kept shots P :
  (forall other, other ∈ shots -> other = (i, sd) \/ blits rect other = false) ->
  cropped (selection P) -> cropped (selection (foldl iter P shots)).
Proof.
  revert P. induction shots as [|item shots IH]; intros P Ho Hc; simpl; [done|].
  apply IH; [intros other ?; apply Ho; by right|].
  destruct (Ho item) as [->|Hb]; [by left|..].
  - intros px py Hx Hy. rewrite containing_data by done.
    rewrite (Hc px py) by done. apply over_idem.
  - by rewrite composite_screen_skip.
Qed.

Lemma cropped_reached shots P :
  (i, sd) ∈ shots ->
  (forall other, other ∈ shots -> other = (i, sd) \/ blits rect other = false) ->
  (forall px py, QPixmap.data (selection P) px py = None) ->
  cropped (selection (foldl iter P shots)).
Proof.
  revert P. induction shots as [|item shots IH]; intros P Hin Ho Hc; simpl.
  - by apply elem_of_nil in Hin.
  - destruct (Ho item) as [->|Hb]; [by left|..].
    + apply cropped_kept; [intros other ?; apply Ho; by right|].
      intros px py Hx Hy. rewrite containing_data by done.
      rewrite Hc. apply over_transparent.
    + apply elem_of_cons in Hin as [<-|Hin].
      { by rewrite containing_blits in Hb. }
      apply IH; [done|intros other ?; apply Ho; by right|].
      by rewrite composite_screen_skip.
Qed.

Lemma disjoint_not_blits other :
  disjoint_rects rect (geometry other.2) = true -> blits rect other = false.
Proof.
  unfold disjoint_rects, blits. intros ->. simpl. by rewrite andb_false_r.
Qed.
End SingleMonitor.

(** C5.  When the selection rectangle lies inside the geometry of one
    screen whose snapshot has the size of that geometry, and no other
    screenshot's geometry meets the selection, the composited image is the
    crop of that screen's buffer at offset
    [(rect.x - geometry.x, rect.y - geometry.y)], pixel for pixel. *)
Theorem composite_single_monitor x1 y1 width height shots i sd gx gy :
  (i, sd) ∈ shots ->
  0 < width -> 0 < height ->
  geometry sd = QRect.make gx gy (QPixmap.width (pixmap sd)) (QPixmap.height (pixmap sd)) ->
  gx <= x1 -> x1 + width <= gx + QPixmap.width (pixmap sd) ->
  gy <= y1 -> y1 + height <= gy + QPixmap.height (pixmap sd) ->
  (forall other, other ∈ shots ->
     other = (i, sd)
     \/ disjoint_rects (QRect.make x1 y1 width height) (geometry other.2) = true) ->
  QPixmap.toImage (selection (composite x1 y1 width height shots))
  = QPixmap.toImage (QPixmap.copy (pixmap sd) (x1 - gx) (y1 - gy) width height).
Proof.
  intros Hin Hw Hh Hg Hl Hr Ht Hb Ho. unfold composite.
  set (P := {| selection := QPixmap.transparent width height; ops := [] |}).
  destruct (composite_fold_size x1 y1 (QRect.make x1 y1 width height) P shots)
    as [Ew Eh].
  simpl in Ew, Eh.
  apply toImage_ext; [done..|].
  rewrite Ew, Eh. intros px py Hx Hy.
  rewrite !pixelAt_inside by (simpl; lia). simpl.
  eapply (cropped_reached x1 y1 width height i sd gx gy); try done.
  intros other Hother. destruct (Ho other Hother) as [->|Hd]; [by left|right].
  by apply disjoint_not_blits.
Qed.

(** ** The painter's log and the validation of source blocks *)

Lemma composite_screen_ops x1 y1 rect P item :
  ops (composite_screen x1 y1 rect P item) = ops P ++ logged rect x1 y1 item.
Proof.
  unfold composite_screen, logged, blits.
  destruct (QPixmap.isNull _); simpl; [done|].
  destruct (QRect.isEmpty _); simpl; [by rewrite app_nil_r|].
  by destruct (src_valid _ _ _ _).
Qed.

Lemma composite_fold_ops x1 y1 rect shots P :
  ops (foldl (composite_screen x1 y1 rect) P shots)
  = ops P ++ concat (logged rect x1 y1 <$> shots).
Proof.
  revert P. induction shots as [|item shots IH]; intros P; simpl.
  - by rewrite app_nil_r.
  - by rewrite IH, composite_screen_ops, <- app_assoc.
Qed.

Lemma logged_in_bounds rect x1 y1 shots item :
  item ∈ shots -> Forall (blit_in_bounds shots) (logged rect x1 y1 item).
Proof.
  intros Hin. unfold logged.
  destruct (QPixmap.isNull _); [by repeat constructor|].
  destruct (QRect.isEmpty _) eqn:He; [constructor|].
  destruct (blits rect item) eqn:Hb; [|by repeat constructor].
  repeat constructor. exists item.2. split; [by destruct item|].
  unfold blits in Hb. apply andb_prop in Hb as [_ Hv].
  apply nonempty_extent in He as [? ?].
  unfold src_valid in Hv.
  apply andb_prop in Hv as [[[?%Z.leb_le ?%Z.leb_le]%andb_prop ?%Z.leb_le]%andb_prop ?%Z.leb_le].
  done.
Qed.

(** Every blit of the loop reads inside the buffer of its own screen. *)
Lemma composite_in_bounds x1 y1 width height shots :
  Forall (blit_in_bounds shots) (ops (composite x1 y1 width height shots)).
Proof.
  unfold composite. rewrite composite_fold_ops. simpl.
  apply Forall_concat, Forall_fmap, Forall_forall. intros item Hin.
  by apply logged_in_bounds.
Qed.

Lemma invalid_not_blits rect item :
  (let overlap := QRect.intersected rect (geometry item.2) in
   src_valid (QRect.x overlap - QRect.x (geometry item.2))
             (QRect.y overlap - QRect.y (geometry item.2))
             overlap (pixmap item.2)) = false ->
  blits rect item = false.
Proof. cbv zeta. unfold blits. intros ->. by rewrite andb_false_r. Qed.

Lemma not_blits_logged rect x1 y1 item :
  blits rect item = false -> filter is_blit (logged rect x1 y1 item) = [].
Proof.
  intros Hb. unfold logged. rewrite Hb.
  destruct (QPixmap.isNull _); [done|]. by destruct (QRect.isEmpty _).
Qed.

(** C6.  A screen whose source block fails the validation is not blitted:
    its iteration leaves the selection pixmap untouched and logs no blit,
    the composite of all screens equals the composite without that screen
    (same pixmap, same blits), every blit that is performed reads inside
    the buffer of its screen, and the result is an image of the size of the
    selection. *)
Theorem composite_bounds_isolation x1 y1 width height before after i sd :
  (let overlap := QRect.intersected (QRect.make x1 y1 width height) (geometry sd) in
   src_valid (QRect.x overlap - QRect.x (geometry sd))
             (QRect.y overlap - QRect.y (geometry sd))
             overlap (pixmap sd)) = false ->
  let rect := QRect.make x1 y1 width height in
  let p := composite x1 y1 width height (before ++ (i, sd) :: after) in
  let q := composite x1 y1 width height (before ++ after) in
  (forall P, selection (composite_screen x1 y1 rect P (i, sd)) = selection P
             /\ filter is_blit (ops (composite_screen x1 y1 rect P (i, sd)))
                = filter is_blit (ops P))
  /\ selection p = selection q
  /\ filter is_blit (ops p) = filter is_blit (ops q)
  /\ Forall (blit_in_bounds (before ++ (i, sd) :: after)) (ops p)
  /\ QPixmap.width (selection p) = width
  /\ QPixmap.height (selection p) = height.
Proof.
  intros Hv rect p q.
  pose proof (invalid_not_blits rect (i, sd) Hv) as Hb.
  split; [|split; [|split; [|split]]].
  - intros P. split; [by apply composite_screen_skip|].
    rewrite composite_screen_ops, filter_app, not_blits_logged by done.
    by rewrite app_nil_r.
  - unfold p, q, composite. rewrite !foldl_app. simpl.
    apply composite_fold_selection. by apply composite_screen_skip.
  - unfold p, q, composite. rewrite !composite_fold_ops. simpl.
    rewrite !fmap_app, !concat_app, !filter_app. simpl.
    rewrite filter_app, not_blits_logged by done. done.
  - apply composite_in_bounds.
  - unfold p, composite. apply composite_fold_size.
Qed.

(** ** File names *)

Lemma length_append (s t : string) :
  String.length (s +:+ t) = (String.length s + String.length t)%nat.
Proof.
  induction s as [|c s IH]; [done|].
  change (S (String.length (s +:+ t)) = S (String.length s + String.length t)).
  by rewrite IH.
Qed.

Lemma append_assoc (s t u : string) : ((s +:+ t) +:+ u = s +:+ (t +:+ u))%string.
Proof.
  induction s as [|c s IH]; [done|].
  change (String c ((s +:+ t) +:+ u) = String c (s +:+ (t +:+ u)))%string.
  by rewrite IH.
Qed.

Lemma append_inj_r (s s' t : string) : (s +:+ t = s' +:+ t)%string -> s = s'.
Proof.
  revert s'. induction s as [|c s IH]; intros [|c' s'] H.
  - done.
  - apply (f_equal String.length) in H.
    rewrite (length_append (String c' s')) in H. cbn [String.length] in H.
    change (String.length ("" +:+ t)) with (String.length t) in H. lia.
  - apply (f_equal String.length) in H.
    rewrite (length_append (String c s)) in H. cbn [String.length] in H.
    change (String.length ("" +:+ t)) with (String.length t) in H. lia.
  - change (String c (s +:+ t) = String c' (s' +:+ t))%string in H.
    injection H as -> H. f_equal. by apply IH.
Qed.

Lemma candidate_name_relative x1 y1 width height k :
  String.prefix "/" (candidate_name x1 y1 width height k) = false.
Proof. by destruct k. Qed.

Lemma join_candidate loc x1 y1 width height k :
  candidate loc x1 y1 width height k
  = (dir_prefix loc +:+ candidate_name x1 y1 width height k)%string.
Proof.
  unfold candidate, join, dir_prefix. rewrite candidate_name_relative.
  destruct (_ || _); [done|]. by rewrite append_assoc.
Qed.

Lemma candidate_inj loc x1 y1 width height : Inj (=) (=) (candidate loc x1 y1 width height).
Proof.
  intros k j H. rewrite !join_candidate in H. apply (inj _) in H.
  destruct k as [|k], j as [|j]; [done|..];
    unfold candidate_name, capture_name, numbered_name in H;
    apply (inj _) in H.
  - change (String "." "png" = String "_" (pretty (Z.of_nat (S j)) +:+ ".png"))%string in H.
    discriminate.
  - change (String "_" (pretty (Z.of_nat (S k)) +:+ ".png") = String "." "png")%string in H.
    discriminate.
  - change (String "_" (pretty (Z.of_nat (S k)) +:+ ".png")
            = String "_" (pretty (Z.of_nat (S j)) +:+ ".png"))%string in H.
    injection H as H. apply append_inj_r in H.
    apply (inj pretty) in H. lia.
Qed.

Lemma candidate_next loc x1 y1 width height k :
  join loc (numbered_name x1 y1 width height (Z.of_nat k + 1))
  = candidate loc x1 y1 width height (S k).
Proof. unfold candidate, candidate_name. do 3 f_equal. lia. Qed.

Lemma unused_path_some fuel files loc x1 y1 width height k p :
  unused_path fuel files loc x1 y1 width height
    (candidate loc x1 y1 width height k) (Z.of_nat k + 1) = Some p ->
  exists j, (k <= j)%nat
    /\ p = candidate loc x1 y1 width height j
    /\ (p ∉ files)
    /\ forall i, (k <= i < j)%nat -> candidate loc x1 y1 width height i ∈ files.
Proof.
  revert k. induction fuel as [|fuel IH]; intros k H; simpl in H; [done|].
  case_bool_decide as Hin.
  - rewrite candidate_next in H.
    replace (Z.of_nat k + 1 + 1) with (Z.of_nat (S k) + 1) in H by lia.
    apply IH in H as (j & Hj & -> & Hp & Hall).
    exists j. split; [lia|]. split; [done|]. split; [done|].
    intros i Hi. destruct (decide (i = k)) as [->|]; [done|]. apply Hall. lia.
  - injection H as <-. exists k. split; [lia|]. split; [done|]. split; [done|].
    intros i Hi. lia.
Qed.

Lemma unused_path_none fuel files loc x1 y1 width height k :
  unused_path fuel files loc x1 y1 width height
    (candidate loc x1 y1 width height k) (Z.of_nat k + 1) = None ->
  forall i, (k <= i < k + fuel)%nat -> candidate loc x1 y1 width height i ∈ files.
Proof.
  revert k. induction fuel as [|fuel IH]; intros k H i Hi; simpl in H; [lia|].
  case_bool_decide as Hin; [|done].
  rewrite candidate_next in H.
  replace (Z.of_nat k + 1 + 1) with (Z.of_nat (S k) + 1) in H by lia.
  destruct (decide (i = k)) as [->|]; [done|].
  apply (IH _ H). lia.
Qed.

(** The loop ends: among [size files + 1] different names one is unused. *)
Lemma fixed_location_path_total files loc x1 y1 width height :
  is_Some (fixed_location_path files loc x1 y1 width height).
Proof.
  unfold fixed_location_path.
  change (join loc (capture_name x1 y1 width height))
    with (candidate loc x1 y1 width height 0).
  change 1 with (Z.of_nat 0 + 1).
  destruct (unused_path _ _ _ _ _ _ _ _ _) as [p|] eqn:E; [by eexists|].
  exfalso.
  pose proof (unused_path_none _ _ _ _ _ _ _ _ E) as Hall.
  set (l := candidate loc x1 y1 width height <$> seq 0 (S (size files))).
  assert (NoDup l) as Hnd.
  { apply NoDup_fmap_2; [apply candidate_inj|apply NoDup_seq]. }
  assert (l ⊆+ elements files) as Hsub.
  { apply NoDup_submseteq; [done|]. intros x [i [-> Hi]]%list_elem_of_fmap.
    apply elem_of_elements, Hall. apply elem_of_seq in Hi. lia. }
  apply submseteq_length in Hsub. unfold l in Hsub.
  rewrite length_fmap, length_seq in Hsub.
  unfold size, set_size in Hsub. simpl in Hsub. lia.
Qed.

(** C9.  In fixed-location mode the image is saved under the first of the
    names [capture_{x1}_{y1}_{width}x{height}.png],
    [capture_{x1}_{y1}_{width}x{height}_1.png], [..._2.png], ... in the
    save directory that does not exist yet: every earlier name exists, the
    chosen one does not, and exactly that file is written. *)
Theorem fixed_location_first_unused a w x1 y1 width height sel :
  output_mode a = fixed_location ->
  exists k : nat,
    let filepath := candidate (save_location a) x1 y1 width height k in
    fixed_location_path (files w) (save_location a) x1 y1 width height = Some filepath
    /\ (filepath ∉ files w)
    /\ (forall j, (j < k)%nat ->
                  candidate (save_location a) x1 y1 width height j ∈ files w)
    /\ process_output a x1 y1 width height sel w = save filepath sel w
    /\ trace (process_output a x1 y1 width height sel w)
       = trace w ++ [SavePixmap filepath (QPixmap.toImage sel)].
Proof.
  intros Hmode.
  destruct (fixed_location_path_total (files w) (save_location a) x1 y1 width height)
    as [p Hp].
  pose proof Hp as Hspec. unfold fixed_location_path in Hspec.
  change (join (save_location a) (capture_name x1 y1 width height))
    with (candidate (save_location a) x1 y1 width height 0) in Hspec.
  change 1 with (Z.of_nat 0 + 1) in Hspec.
  apply unused_path_some in Hspec as (k & _ & -> & Hfree & Hall).
  exists k. cbv zeta. unfold process_output. rewrite Hmode, Hp.
  split; [done|]. split; [done|]. split; [|done].
  intros j Hj. apply Hall. lia.
Qed.

(** ** Selection bounds *)

(** [capture_from_coordinates] normalises each axis on its own. *)
Lemma coordinates_bounds_normalized b e :
  let r := coordinates_bounds b e in
  bx1 r = Z.min (QPoint.x b) (QPoint.x e)
  /\ by1 r = Z.min (QPoint.y b) (QPoint.y e)
  /\ bx2 r = Z.max (QPoint.x b) (QPoint.x e)
  /\ by2 r = Z.max (QPoint.y b) (QPoint.y e)
  /\ bwidth r = Z.abs (QPoint.x e - QPoint.x b)
  /\ bheight r = Z.abs (QPoint.y e - QPoint.y b).
Proof. unfold coordinates_bounds, bwidth, bheight. simpl. lia. Qed.

(** [finish_capture] agrees with it when the end point is not above the
    begin point ... *)
Lemma finish_bounds_downward b e :
  QPoint.y b <= QPoint.y e -> finish_bounds b e = coordinates_bounds b e.
Proof.
  intros H. unfold finish_bounds, coordinates_bounds.
  by destruct (Z.ltb_spec (QPoint.y e) (QPoint.y b)); [lia|].
Qed.

(** ... and computes a height of zero when it is. *)
Lemma finish_bounds_upward b e :
  QPoint.y e < QPoint.y b ->
  by2 (finish_bounds b e) = QPoint.y e /\ bheight (finish_bounds b e) = 0.
Proof.
  intros H. unfold finish_bounds, bheight. simpl.
  destruct (Z.ltb_spec (QPoint.y e) (QPoint.y b)); lia.
Qed.

Lemma finish_bounds_le b e :
  bx1 (finish_bounds b e) = bx1 (coordinates_bounds b e)
  /\ by1 (finish_bounds b e) = by1 (coordinates_bounds b e)
  /\ bwidth (finish_bounds b e) = bwidth (coordinates_bounds b e)
  /\ bheight (finish_bounds b e) <= bheight (coordinates_bounds b e).
Proof.
  unfold finish_bounds, coordinates_bounds, bwidth, bheight. simpl.
  destruct (Z.ltb_spec (QPoint.y e) (QPoint.y b)); lia.
Qed.

(** C1.  For the end points (10, 200) and (110, 50), an upward drag,
    [capture_from_coordinates] uses the normalised rectangle of height
    150, but [finish_capture] sets [y2] to the smaller coordinate and
    obtains a rectangle of height 0. *)
Theorem finish_bounds_upward_drag :
  let b := QPoint.make 10 200 in
  let e := QPoint.make 110 50 in
  coordinates_bounds b e = {| bx1 := 10; by1 := 50; bx2 := 110; by2 := 200 |}
  /\ bheight (coordinates_bounds b e) = Z.abs (QPoint.y e - QPoint.y b)
  /\ finish_bounds b e = {| bx1 := 10; by1 := 50; bx2 := 110; by2 := 50 |}
  /\ by2 (finish_bounds b e) <> Z.max (QPoint.y b) (QPoint.y e)
  /\ bheight (finish_bounds b e) = 0
  /\ bheight (finish_bounds b e) <> Z.abs (QPoint.y e - QPoint.y b).
Proof. vm_compute. repeat split; discriminate. Qed.

(** ** Tearing the overlays down *)

Lemma torn_down_alter ws id j :
  torn_down ws id -> torn_down (alter close_overlay j ws) id.
Proof.
  intros H o. rewrite list_lookup_alter. case_decide as E; [|apply H].
  subst j. destruct (ws !! id) as [o0|]; [|done]. simpl. by intros [= <-].
Qed.

Lemma torn_down_alter_eq ws id : torn_down (alter close_overlay id ws) id.
Proof.
  intros o. rewrite list_lookup_alter_eq.
  destruct (ws !! id) as [o0|]; [|done]. simpl. by intros [= <-].
Qed.

Lemma torn_down_foldl ids ws id :
  torn_down ws id ->
  torn_down (foldl (fun ws id => alter close_overlay id ws) ws ids) id.
Proof.
  revert ws. induction ids as [|j ids IH]; intros ws H; simpl; [done|].
  by apply IH, torn_down_alter.
Qed.

Lemma torn_down_elem ids ws id :
  id ∈ ids ->
  torn_down (foldl (fun ws id => alter close_overlay id ws) ws ids) id.
Proof.
  revert ws. induction ids as [|j ids IH]; intros ws Hin; simpl.
  - by apply elem_of_nil in Hin.
  - apply elem_of_cons in Hin as [->|Hin]; [|by apply IH].
    apply torn_down_foldl, torn_down_alter_eq.
Qed.

(** [_cleanup_overlays] closes every overlay of the list, empties the list
    and touches neither the guard, nor the last capture, nor anything
    outside the overlay windows. *)
Lemma cleanup_overlays_spec a w :
  let r := _cleanup_overlays a w in
  overlays r.1 = []
  /\ screenshots r.1 = []
  /\ last_capture r.1 = last_capture a
  /\ is_overlay_operation_in_progress r.1 = is_overlay_operation_in_progress a
  /\ window_visible r.2 = window_visible w
  /\ files r.2 = files w
  /\ trace r.2 = trace w
  /\ (forall id, id ∈ overlays a -> torn_down (widgets r.2) id).
Proof.
  unfold _cleanup_overlays. cbv zeta. simpl.
  destruct (is_capturing a && _); simpl;
    split_and!; try done; intros id Hid; by apply torn_down_elem.
Qed.

(** ** Leaving [finish_capture] *)

(** Every return of [finish_capture] leaves the guard clear, the list of
    overlays empty, its overlays closed and the main window shown. *)
Lemma finish_capture_idle a w :
  let r := finish_capture a w in
  idle r.1 r.2 /\ (forall id, id ∈ overlays a -> torn_down (widgets r.2) id).
Proof.
  unfold finish_capture, idle. cbv zeta.
  destruct (_ || _).
  - destruct (cleanup_overlays_spec (set_is_overlay_operation_in_progress false a) w)
      as (H1 & _ & _ & H2 & _ & _ & _ & H3).
    destruct (_cleanup_overlays _ w) as [a2 w2]. simpl in *. done.
  - match goal with
    | |- context [ let '(a3, w3) := ?X in _ ] => destruct X as [a3 w3] eqn:E
    end.
    destruct (cleanup_overlays_spec a3 w3) as (H1 & _ & _ & _ & _ & _ & _ & H3).
    destruct (_cleanup_overlays a3 w3) as [a4 w4]. simpl in *.
    split_and!; try done.
    intros id Hid. apply H3.
    destruct (_ && _); injection E as <- <-; done.
Qed.

(** When [finish_capture] finds an unset end point or a selection that is
    too small, nothing is composited or delivered. *)
Lemma finish_capture_rejects a w :
  QPoint.isNull (global_begin a) || QPoint.isNull (global_end a) = true
  \/ bwidth (finish_bounds (global_begin a) (global_end a)) <= 10
  \/ bheight (finish_bounds (global_begin a) (global_end a)) <= 10 ->
  let r := finish_capture a w in
  trace r.2 = trace w /\ files r.2 = files w
  /\ last_capture_pixmap r.1 = last_capture_pixmap a.
Proof.
  intros H. unfold finish_capture. cbv zeta.
  destruct (_ || _) eqn:Hnull.
  - destruct (cleanup_overlays_spec (set_is_overlay_operation_in_progress false a) w)
      as (_ & _ & H1 & _ & _ & H2 & H3 & _).
    destruct (_cleanup_overlays _ w) as [a2 w2]. simpl in *.
    unfold last_capture in H1. simpl in H1. by injection H1 as _ _ ->.
  - destruct H as [H|H]; [done|]. simpl.
    assert ((10 <? bwidth (finish_bounds (global_begin a) (global_end a)))
            && (10 <? bheight (finish_bounds (global_begin a) (global_end a))) = false)
      as ->.
    { apply andb_false_iff. destruct H; [left|right]; apply Z.ltb_ge; lia. }
    by destruct (_ && negb _).
Qed.

(** An end point at the origin counts as unset: the session is abandoned,
    nothing is composited or delivered and the last capture is kept. *)
Lemma finish_capture_null_abort a w :
  QPoint.isNull (global_begin a) || QPoint.isNull (global_end a) = true ->
  let r := finish_capture a w in
  trace r.2 = trace w /\ files r.2 = files w
  /\ last_capture r.1 = last_capture a.
Proof.
  intros H. unfold finish_capture. cbv zeta. rewrite H.
  destruct (cleanup_overlays_spec (set_is_overlay_operation_in_progress false a) w)
    as (_ & _ & H1 & _ & _ & H2 & H3 & _).
  by destruct (_cleanup_overlays _ w) as [a2 w2].
Qed.

(** What the output step adds to the trace is neither a deferral nor a
    compositing. *)
Lemma process_output_trace a x1 y1 width height sel w :
  exists out,
    trace (process_output a x1 y1 width height sel w) = trace w ++ out
    /\ Forall (fun e => is_deferral e = false /\ is_composite e = false) out.
Proof.
  unfold process_output. destruct (output_mode a).
  - eexists. split; [done|]. by repeat constructor.
  - destruct (fixed_location_path _ _ _ _ _ _).
    + eexists. split; [done|]. by repeat constructor.
    + exists []. split; [by rewrite app_nil_r|constructor].
  - case_bool_decide.
    + eexists. split; [done|]. by repeat constructor.
    + eexists. simpl. rewrite <- app_assoc. split; [done|]. by repeat constructor.
Qed.

(** [finish_capture] adds effects to the trace only when its own width and
    height are both above 10. *)
Lemma finish_capture_trace a w :
  exists added,
    trace (finish_capture a w).2 = trace w ++ added
    /\ (added = []
        \/ 10 < bwidth (finish_bounds (global_begin a) (global_end a))
           /\ 10 < bheight (finish_bounds (global_begin a) (global_end a))).
Proof.
  destruct (QPoint.isNull (global_begin a) || QPoint.isNull (global_end a)) eqn:Hnull.
  { exists []. destruct (finish_capture_null_abort a w Hnull) as (-> & _).
    split; [by rewrite app_nil_r|by left]. }
  destruct (Z.ltb_spec 10 (bwidth (finish_bounds (global_begin a) (global_end a))))
    as [Hw|Hw];
  [destruct (Z.ltb_spec 10 (bheight (finish_bounds (global_begin a) (global_end a))))
    as [Hh|Hh]|].
  - unfold finish_capture. cbv zeta. rewrite Hnull. simpl.
    rewrite (proj2 (Z.ltb_lt _ _) Hw), (proj2 (Z.ltb_lt _ _) Hh). simpl.
    match goal with
    | |- context [ process_output ?A ?x ?y ?wd ?ht ?s ?W ] =>
        destruct (process_output_trace A x y wd ht s W) as (out & Ho & _);
        set (w3 := process_output A x y wd ht s W) in *
    end.
    simpl in Ho. rewrite <- app_assoc in Ho.
    eexists. split; [exact Ho|right; done].
  - exists []. destruct (finish_capture_rejects a w) as (-> & _); [auto|].
    split; [by rewrite app_nil_r|by left].
  - exists []. destruct (finish_capture_rejects a w) as (-> & _); [auto|].
    split; [by rewrite app_nil_r|by left].
Qed.

(** C3.  When the normalised selection has width <= 10 or height <= 10,
    [finish_capture] adds nothing to the trace (no compositing, no
    clipboard write, no file, no dialog) and writes no file, closes its
    overlays and leaves the application idle; an effect of compositing or
    delivery appears only when width and height are both above 10. *)
Theorem finish_capture_too_small a w :
  let b := coordinates_bounds (global_begin a) (global_end a) in
  let r := finish_capture a w in
  exists added,
    trace r.2 = trace w ++ added
    /\ (bwidth b <= 10 \/ bheight b <= 10 ->
        added = [] /\ files r.2 = files w /\ idle r.1 r.2
        /\ forall id, id ∈ overlays a -> torn_down (widgets r.2) id)
    /\ (Exists (fun e => is_composite e || is_delivery e = true) added ->
        10 < bwidth b /\ 10 < bheight b).
Proof.
  intros b r.
  destruct (finish_bounds_le (global_begin a) (global_end a)) as (_ & _ & Ew & Eh).
  destruct (finish_capture_trace a w) as (added & Ht & Hbig).
  exists added. split; [done|]. split.
  - intros Hsmall.
    destruct (finish_capture_rejects a w) as (Ht' & Hf & _).
    { right. fold b in Ew, Eh. destruct Hsmall; [left|right]; lia. }
    destruct (finish_capture_idle a w) as [Hi Hc].
    split_and!; try done.
    rewrite Ht' in Ht.
    apply (app_inv_head (trace w)). by rewrite app_nil_r.
  - intros Hex. destruct Hbig as [->|[? ?]].
    + by apply Exists_nil in Hex.
    + fold b in Ew, Eh. lia.
Qed.

(** C10.  When either end point is the point (0, 0), [finish_capture]
    takes it for unset: nothing is composited, nothing is delivered, the
    last capture is left as it was, the overlays are closed and the
    application is idle. *)
Theorem finish_capture_origin_endpoint a w :
  global_begin a = QPoint.make 0 0 \/ global_end a = QPoint.make 0 0 ->
  let r := finish_capture a w in
  trace r.2 = trace w /\ files r.2 = files w
  /\ last_capture r.1 = last_capture a
  /\ idle r.1 r.2
  /\ (forall id, id ∈ overlays a -> torn_down (widgets r.2) id).
Proof.
  intros H r.
  assert (QPoint.isNull (global_begin a) || QPoint.isNull (global_end a) = true) as Hn.
  { destruct H as [-> | ->]; [done|]. apply orb_true_r. }
  destruct (finish_capture_null_abort a w Hn) as (? & ? & ?).
  destruct (finish_capture_idle a w) as [? ?].
  by split_and!.
Qed.

(** A click in fixed mode whose centred rectangle has its top-left corner
    on the global origin is such a call: the capture is abandoned. *)
Lemma fixed_click_on_origin id self pos a w :
  widgets w !! id = Some self ->
  mode self = Some fixed ->
  is_capturing a = true ->
  QPoint.x pos = fixed_width self `div` 2 ->
  QPoint.y pos = fixed_height self `div` 2 ->
  let r := mousePressEvent id true pos a w in
  trace r.2 = trace w /\ files r.2 = files w /\ last_capture r.1 = last_capture a.
Proof.
  intros Hself Hmode Hcap Hx Hy. unfold mousePressEvent. rewrite Hself, Hcap, Hmode.
  cbv zeta. simpl andb. cbv iota.
  match goal with
  | |- context [ finish_capture ?A ?W ] =>
      destruct (finish_capture_null_abort A W) as (Ht & Hf & Hl)
  end.
  - apply orb_true_intro. left. unfold QPoint.isNull. simpl.
    unfold QRect.x, QRect.y. rewrite Hx, Hy.
    apply andb_true_intro. split; apply Z.eqb_eq; lia.
  - rewrite Ht, Hf, Hl. by destruct (update_timer self).
Qed.

(** ** The last capture *)

(** Escape leaves the last capture and the trace as they are ... *)
Lemma escape_keeps_last_capture id escape a w :
  let r := keyPressEvent id escape a w in
  last_capture r.1 = last_capture a /\ trace r.2 = trace w /\ files r.2 = files w.
Proof.
  unfold keyPressEvent. cbv zeta.
  destruct (widgets w !! id) as [self|]; [|done].
  destruct (escape && is_capturing a); [|done].
  match goal with
  | |- context [ _cleanup_overlays a ?W ] =>
      destruct (cleanup_overlays_spec a W) as (_ & _ & H1 & _ & _ & H2 & H3 & _);
      destruct (_cleanup_overlays a W) as [a2 w2]
  end.
  simpl in *. rewrite H2, H3. split; [done|]. by destruct (update_timer self).
Qed.

(** ... and ends the session: guard clear, overlays closed, window shown. *)
Lemma escape_idle id self a w :
  widgets w !! id = Some self ->
  is_capturing a = true ->
  let r := keyPressEvent id true a w in
  idle r.1 r.2 /\ is_capturing r.1 = false
  /\ (forall j, j ∈ overlays a -> torn_down (widgets r.2) j).
Proof.
  intros Hself Hcap. unfold keyPressEvent, idle. rewrite Hself, Hcap. cbv zeta.
  simpl andb. cbv iota.
  match goal with
  | |- context [ _cleanup_overlays a ?W ] =>
      destruct (cleanup_overlays_spec a W) as (H1 & _ & _ & _ & _ & _ & _ & H3);
      destruct (_cleanup_overlays a W) as [a2 w2]
  end.
  simpl in *. by split_and!.
Qed.

(** The early rejection in [mouseReleaseEvent] (width or height below 10)
    keeps the last capture too. *)
Lemma release_abort_keeps_last_capture id self pos a w :
  widgets w !! id = Some self ->
  Z.abs (QPoint.x pos - QPoint.x (global_begin a)) < 10
  \/ Z.abs (QPoint.y pos - QPoint.y (global_begin a)) < 10 ->
  let r := mouseReleaseEvent id true pos a w in
  last_capture r.1 = last_capture a /\ trace r.2 = trace w.
Proof.
  intros Hself Hsmall. unfold mouseReleaseEvent. rewrite Hself. cbv zeta.
  destruct (true && is_capturing a); [|done].
  destruct (_ || _); [done|].
  destruct (bool_decide _ && is_drawing self); [|done].
  simpl global_end. simpl global_begin.
  assert ((Z.abs (QPoint.x pos - QPoint.x (global_begin a)) <? 10)
          || (Z.abs (QPoint.y pos - QPoint.y (global_begin a)) <? 10) = true) as ->.
  { apply orb_true_iff. destruct Hsmall; [left|right]; by apply Z.ltb_lt. }
  match goal with
  | |- context [ _cleanup_overlays ?A ?W ] =>
      destruct (cleanup_overlays_spec A W) as (_ & _ & H1 & _ & _ & _ & H3 & _);
      destruct (_cleanup_overlays A W) as [a2 w2]
  end.
  simpl in *. done.
Qed.

(** [finish_capture] stores the end points as soon as both are set,
    before it looks at the size of the selection. *)
Lemma finish_capture_stores_endpoints a w :
  QPoint.isNull (global_begin a) || QPoint.isNull (global_end a) = false ->
  let r := finish_capture a w in
  last_capture_begin r.1 = Some (global_begin a)
  /\ last_capture_end r.1 = Some (global_end a).
Proof.
  intros H. unfold finish_capture. cbv zeta. rewrite H. simpl.
  destruct (_ && _); simpl; by destruct (_ && negb _).
Qed.

(** C2.  After a successful capture from (5, 5) to (25, 20), a session
    given up with Escape keeps the stored last capture, but a free-hand
    session from (7, 3) to (17, 25), whose selection is 10 pixels wide and
    therefore too small, composites and delivers nothing and yet replaces
    the stored end points by its own. *)
Theorem too_small_session_overwrites_last_capture :
  let st0 := run good_session (test_app, test_world two_screens ∅) in
  let st1 := run narrow_session st0 in
  let st2 := run escaped_session st0 in
  last_capture_begin st0.1 = Some (QPoint.make 5 5)
  /\ last_capture_end st0.1 = Some (QPoint.make 25 20)
  /\ last_capture st2.1 = last_capture st0.1
  /\ bwidth (coordinates_bounds (QPoint.make 7 3) (QPoint.make 17 25)) = 10
  /\ trace st1.2 = trace st0.2 ++ [SingleShot 200 (CreateOverlays 800 600)]
  /\ last_capture_pixmap st1.1 = last_capture_pixmap st0.1
  /\ last_capture_begin st1.1 = Some (QPoint.make 7 3)
  /\ last_capture_end st1.1 = Some (QPoint.make 17 25)
  /\ last_capture st1.1 <> last_capture st0.1.
Proof.
  cbv zeta. split_and!; try (vm_compute; reflexivity).
  intros H. apply (f_equal (fun c => c.1.1)) in H. vm_compute in H. discriminate.
Qed.

(** ** Failures while the overlays are created *)

Lemma close_all_length ids ws :
  length (foldl (fun ws id => alter close_overlay id ws) ws ids) = length ws.
Proof.
  revert ws. induction ids as [|j ids IH]; intros ws; simpl; [done|].
  by rewrite IH, length_alter.
Qed.

(** When the grab of the first screen raises, the handler clears the guard
    and shows the main window, and the overlay created for that screen
    stays in the list, open. *)
Lemma create_overlays_grab_failure width height a w s rest :
  screens w = s :: rest ->
  fault s = GrabRaises ->
  let r := _create_overlays width height a w in
  is_overlay_operation_in_progress r.1 = false
  /\ window_visible r.2 = true
  /\ overlays r.1 = [length (widgets w)]
  /\ exists o, widgets r.2 !! length (widgets w) = Some o /\ closed o = false.
Proof.
  intros Hs Hf. unfold _create_overlays, _cleanup_overlays. cbv zeta.
  simpl screens. rewrite Hs. simpl. rewrite Hf. simpl.
  split_and!; try done.
  - by rewrite close_all_length.
  - eexists. split.
    + rewrite <- (close_all_length (overlays a) (widgets w)).
      by rewrite lookup_app_r, Nat.sub_diag.
    + reflexivity.
Qed.

(** C4.  With two screens of which the second fails while it is grabbed,
    [_create_overlays] clears the guard and shows the main window again,
    but the two overlays it has created stay in the list and stay open
    (the first one visible); Escape does not remove them, because
    [is_capturing] was never set. *)
Theorem create_overlays_failure_leaves_overlays :
  let st := run [ClickFreehand; TimerCreateOverlays 800 600]
                (test_app, test_world faulty_screens ∅) in
  let st' := run [KeyPress 0 true] st in
  is_overlay_operation_in_progress st.1 = false
  /\ window_visible st.2 = true
  /\ is_capturing st.1 = false
  /\ overlays st.1 = [0%nat; 1%nat]
  /\ ((fun o => (visible o, closed o)) <$> widgets st.2) = [(true, false); (false, false)]
  /\ overlays st'.1 = [0%nat; 1%nat]
  /\ ((fun o => (visible o, closed o)) <$> widgets st'.2) = [(true, false); (false, false)].
Proof. cbv zeta. split_and!; vm_compute; reflexivity. Qed.

(** ** Rapid re-capture *)

Lemma process_output_widgets a x1 y1 width height sel w :
  widgets (process_output a x1 y1 width height sel w) = widgets w.
Proof.
  unfold process_output. destruct (output_mode a); [done| |].
  - by destruct (fixed_location_path _ _ _ _ _ _).
  - by case_bool_decide.
Qed.

(** What [capture_from_coordinates] does: it never touches the
    application object or the overlay windows, and when it composites, it
    does so first and for the normalised rectangle of its two points. *)
Lemma capture_from_coordinates_spec b e a w :
  let r := capture_from_coordinates b e a w in
  let bounds := coordinates_bounds b e in
  let rect := QRect.make (bx1 bounds) (by1 bounds) (bwidth bounds) (bheight bounds) in
  r.1 = a /\ widgets r.2 = widgets w
  /\ exists added,
       trace r.2 = trace w ++ added
       /\ Forall (fun ef => is_deferral ef = false) added
       /\ (forall rect' ops', Composite rect' ops' ∈ added -> rect' = rect)
       /\ (10 < bwidth bounds -> 10 < bheight bounds ->
           forall shots, grab_screens 0 (screens w) = Some shots ->
           exists out,
             added = Composite rect
                       (ops (composite (bx1 bounds) (by1 bounds)
                               (bwidth bounds) (bheight bounds) shots)) :: out).
Proof.
  intros r bounds rect. unfold r, capture_from_coordinates. cbv zeta.
  fold bounds.
  destruct (Z.ltb_spec 10 (bwidth bounds)) as [Hw|Hw];
    [destruct (Z.ltb_spec 10 (bheight bounds)) as [Hh|Hh]|]; simpl.
  - destruct (grab_screens 0 (screens w)) as [shots|] eqn:Hg; simpl.
    + rewrite process_output_widgets. split; [done|]. split; [done|].
      match goal with
      | |- context [ process_output ?A ?x ?y ?wd ?ht ?s ?W ] =>
          destruct (process_output_trace A x y wd ht s W) as (out & Ho & Hout)
      end.
      simpl in Ho. rewrite <- app_assoc in Ho. simpl in Ho.
      eexists. split; [exact Ho|]. split_and!.
      * constructor; [done|]. eapply Forall_impl; [exact Hout|]. by intros ? [? ?].
      * intros rect' ops' [Heq|Hin]%elem_of_cons; [by injection Heq as -> _|].
        rewrite Forall_forall in Hout. by destruct (Hout _ Hin) as [_ ?].
      * intros _ _ shots' [= <-]. by eexists.
    + split; [done|]. split; [done|]. exists []. rewrite app_nil_r.
      split_and!; [done|constructor| |done].
      intros ? ? Hin. by apply elem_of_nil in Hin.
  - split; [done|]. split; [done|]. exists []. rewrite app_nil_r.
    split_and!; [done|constructor| |lia].
    intros ? ? Hin. by apply elem_of_nil in Hin.
  - split; [done|]. split; [done|]. exists []. rewrite app_nil_r.
    split_and!; [done|constructor| |lia].
    intros ? ? Hin. by apply elem_of_nil in Hin.
Qed.

(** C8.  A rapid re-capture with a stored last capture creates no overlay
    and schedules no deferral; whenever it composites, the rectangle is the
    normalisation of the stored pair [(last_capture_begin,
    last_capture_end)], and it does composite, as its first effect, when
    the guard is clear, the stored selection is large enough and the
    screens can be grabbed. *)
Theorem rapid_capture_reuses_last a w b e :
  last_capture_begin a = Some b ->
  last_capture_end a = Some e ->
  let r := start_rapid_capture a w in
  let bounds := coordinates_bounds b e in
  let rect := QRect.make (bx1 bounds) (by1 bounds) (bwidth bounds) (bheight bounds) in
  widgets r.2 = widgets w
  /\ overlays r.1 = overlays a
  /\ exists added,
       trace r.2 = trace w ++ added
       /\ Forall (fun ef => is_deferral ef = false) added
       /\ (forall rect' ops', Composite rect' ops' ∈ added -> rect' = rect)
       /\ (is_overlay_operation_in_progress a = false ->
           10 < bwidth bounds -> 10 < bheight bounds ->
           forall shots, grab_screens 0 (screens w) = Some shots ->
           global_begin r.1 = b /\ global_end r.1 = e
           /\ exists out,
                added = Composite rect
                          (ops (composite (bx1 bounds) (by1 bounds)
                                  (bwidth bounds) (bheight bounds) shots)) :: out).
Proof.
  intros Hb He r bounds rect. unfold r, start_rapid_capture. rewrite Hb, He.
  destruct (is_overlay_operation_in_progress a) eqn:Hbusy.
  - split; [done|]. split; [done|]. exists []. rewrite app_nil_r.
    split_and!; [done|constructor| |done].
    intros ? ? Hin. by apply elem_of_nil in Hin.
  - cbv zeta. simpl global_begin. simpl global_end.
    match goal with
    | |- context [ capture_from_coordinates b e ?A w ] =>
        destruct (capture_from_coordinates_spec b e A w)
          as (Ha & Hwid & added & Ht & Hd & Hc & Hfirst)
    end.
    rewrite Ha, Hwid. split; [done|]. split; [done|].
    exists added. split_and!; try done.
    intros _ Hw Hh shots Hg. split; [done|]. split; [done|]. by apply Hfirst.
Qed.

(** ** The statements at concrete inputs *)

Lemma composite_order_independent_witness :
  pairwise_disjoint test_shots = true
  /\ test_shots ≡ₚ reverse test_shots
  /\ QPixmap.toImage (selection (composite (-10) 0 19 15 test_shots))
     = QPixmap.toImage (selection (composite (-10) 0 19 15 (reverse test_shots))).
Proof.
  assert (pairwise_disjoint test_shots = true) as Hd by reflexivity.
  assert (test_shots ≡ₚ reverse test_shots) as Hp by apply perm_swap.
  exact (conj Hd (conj Hp
           (composite_order_independent (-10) 0 19 15 test_shots (reverse test_shots) Hd Hp))).
Defined.

Lemma composite_single_monitor_witness :
  QPixmap.toImage (selection (composite 5 5 20 15 test_shots))
  = QPixmap.toImage (QPixmap.copy (pixmap shot_right) (5 - 0) (5 - 0) 20 15).
Proof.
  apply (composite_single_monitor 5 5 20 15 test_shots 0%nat shot_right 0 0);
    try (simpl; lia).
  - by left.
  - reflexivity.
  - intros other Hin. apply elem_of_cons in Hin as [->|Hin]; [by left|].
    apply elem_of_cons in Hin as [->|Hin]; [by right|].
    by apply elem_of_nil in Hin.
Defined.

Lemma composite_bounds_isolation_witness :
  selection (composite 30 0 30 20 ([(0%nat, shot_right)] ++ (2%nat, shot_short) :: [(1%nat, shot_left)]))
  = selection (composite 30 0 30 20 ([(0%nat, shot_right)] ++ [(1%nat, shot_left)]))
  /\ ops (composite 30 0 30 20 ([(0%nat, shot_right)] ++ (2%nat, shot_short) :: [(1%nat, shot_left)]))
     = [Blit 0 0 0 30 0 10 20; OutOfBounds 2].
Proof.
  split; [|reflexivity].
  apply (composite_bounds_isolation 30 0 30 20 [(0%nat, shot_right)] [(1%nat, shot_left)]
           2%nat shot_short).
  reflexivity.
Defined.

Lemma rapid_capture_reuses_last_witness :
  last_capture_begin captured.1 = Some (QPoint.make 5 5)
  /\ last_capture_end captured.1 = Some (QPoint.make 25 20)
  /\ widgets (start_rapid_capture captured.1 captured.2).2 = widgets captured.2
  /\ overlays (start_rapid_capture captured.1 captured.2).1 = overlays captured.1.
Proof.
  assert (last_capture_begin captured.1 = Some (QPoint.make 5 5)) as Hb
    by (vm_compute; reflexivity).
  assert (last_capture_end captured.1 = Some (QPoint.make 25 20)) as He
    by (vm_compute; reflexivity).
  pose proof (rapid_capture_reuses_last captured.1 captured.2 _ _ Hb He) as H.
  cbv zeta in H.
  exact (conj Hb (conj He (conj (proj1 H) (proj1 (proj2 H))))).
Defined.

(** The rapid re-capture of that state composites the stored rectangle
    and puts the image on the clipboard. *)
Example rapid_capture_effects :
  is_composite <$> drop (length (trace captured.2))
                        (trace (start_rapid_capture captured.1 captured.2).2)
  = [true; false]
  /\ is_delivery <$> drop (length (trace captured.2))
                          (trace (start_rapid_capture captured.1 captured.2).2)
     = [false; true].
Proof. split; vm_compute; reflexivity. Qed.

Lemma fixed_location_first_unused_witness :
  output_mode (set_output_mode fixed_location test_app) = fixed_location
  /\ exists k : nat,
       let filepath := candidate "/tmp/shots" 5 5 100 100 k in
       fixed_location_path taken_files "/tmp/shots" 5 5 100 100 = Some filepath
       /\ (filepath ∉ taken_files)
       /\ (forall j, (j < k)%nat -> candidate "/tmp/shots" 5 5 100 100 j ∈ taken_files)
       /\ process_output (set_output_mode fixed_location test_app) 5 5 100 100
            (test_pixmap 100 100 0) (test_world two_screens taken_files)
          = save filepath (test_pixmap 100 100 0) (test_world two_screens taken_files)
       /\ trace (process_output (set_output_mode fixed_location test_app) 5 5 100 100
                   (test_pixmap 100 100 0) (test_world two_screens taken_files))
          = trace (test_world two_screens taken_files)
            ++ [SavePixmap filepath (QPixmap.toImage (test_pixmap 100 100 0))].
Proof.
  split; [reflexivity|].
  exact (fixed_location_first_unused (set_output_mode fixed_location test_app)
           (test_world two_screens taken_files) 5 5 100 100 (test_pixmap 100 100 0)
           eq_refl).
Defined.

(** The names of the specification's example: with
    [capture_5_5_100x100.png] taken the next capture is saved with the
    suffix [_1], and with that one taken too, with [_2]. *)
Example fixed_location_suffixes :
  fixed_location_path ∅ "/tmp/shots" 5 5 100 100
  = Some "/tmp/shots/capture_5_5_100x100.png"%string
  /\ fixed_location_path {[ "/tmp/shots/capture_5_5_100x100.png"%string ]}
       "/tmp/shots" 5 5 100 100
     = Some "/tmp/shots/capture_5_5_100x100_1.png"%string
  /\ fixed_location_path taken_files "/tmp/shots" 5 5 100 100
     = Some "/tmp/shots/capture_5_5_100x100_2.png"%string
  /\ fixed_location_path ∅ "/tmp/shots/" (-40) 0 19 15
     = Some "/tmp/shots/capture_-40_0_19x15.png"%string.
Proof. split_and!; vm_compute; reflexivity. Qed.

Lemma finish_capture_origin_endpoint_witness :
  let a := set_global_end (QPoint.make 19 15) test_app in
  let w := test_world two_screens ∅ in
  (global_begin a = QPoint.make 0 0 \/ global_end a = QPoint.make 0 0)
  /\ trace (finish_capture a w).2 = trace w
  /\ last_capture (finish_capture a w).1 = last_capture a.
Proof.
  cbv zeta.
  assert (global_begin (set_global_end (QPoint.make 19 15) test_app) = QPoint.make 0 0
          \/ global_end (set_global_end (QPoint.make 19 15) test_app) = QPoint.make 0 0)
    as H by (left; reflexivity).
  pose proof (finish_capture_origin_endpoint
                (set_global_end (QPoint.make 19 15) test_app)
                (test_world two_screens ∅) H) as R.
  cbv zeta in R.
  exact (conj H (conj (proj1 R) (proj1 (proj2 (proj2 R))))).
Defined.

(** The fixed-mode click at (10, 8) with a 20 x 16 frame puts the top-left
    corner of the frame on the origin: nothing is captured. *)
Example fixed_click_on_origin_session :
  let st := run [ClickFixed 20 16; TimerCreateOverlays 20 16;
                 MousePress 1 true (QPoint.make 10 8)]
                (test_app, test_world two_screens ∅) in
  Forall (fun ef => is_composite ef || is_delivery ef = false) (trace st.2)
  /\ last_capture st.1 = (None, None, None)
  /\ is_overlay_operation_in_progress st.1 = false
  /\ window_visible st.2 = true.
Proof.
  cbv zeta. split_and!; try (vm_compute; reflexivity).
  vm_compute. repeat constructor.
Qed.

Lemma finish_capture_too_small_witness :
  let a := set_global_end (QPoint.make 17 25)
             (set_global_begin (QPoint.make 7 3) test_app) in
  let w := test_world two_screens ∅ in
  bwidth (coordinates_bounds (global_begin a) (global_end a)) <= 10
  /\ trace (finish_capture a w).2 = trace w
  /\ idle (finish_capture a w).1 (finish_capture a w).2.
Proof.
  cbv zeta.
  set (a := set_global_end (QPoint.make 17 25)
              (set_global_begin (QPoint.make 7 3) test_app)).
  set (w := test_world two_screens ∅).
  assert (bwidth (coordinates_bounds (global_begin a) (global_end a)) <= 10) as Hs
    by (vm_compute; discriminate).
  destruct (finish_capture_too_small a w) as (added & Ht & Hsmall & _).
  destruct (Hsmall (or_introl Hs)) as (-> & _ & Hidle & _).
  rewrite app_nil_r in Ht.
  exact (conj Hs (conj Ht Hidle)).
Defined.

(** * Further properties *)

(** ** [gcd] and [simplify_ratio] *)

Lemma gcd_loop_spec fuel a b :
  (Z.abs_nat b < fuel)%nat ->
  exists g, gcd_loop fuel a b = Some g
    /\ Z.abs g = Z.gcd a b
    /\ (0 <= a -> 0 <= b -> 0 <= g).
Proof.
  revert a b. induction fuel as [|fuel IH]; intros a b Hf; [lia|]. simpl.
  destruct (Z.eqb_spec b 0) as [->|Hb].
  - exists a. split; [done|]. split; [by rewrite Z.gcd_0_r|done].
  - destruct (IH b (a `mod` b)) as (g & Hg & Habs & Hsign).
    { pose proof (Z.mod_pos_bound a b). pose proof (Z.mod_neg_bound a b). lia. }
    exists g. split; [done|]. split.
    + rewrite Habs, Z.gcd_comm, Z.gcd_mod by done. apply Z.gcd_comm.
    + intros Ha Hb'. apply Hsign; [done|].
      apply Z.mod_pos_bound. lia.
Qed.

(** [gcd] always returns, with the greatest common divisor up to sign. *)
Lemma gcd_spec a b :
  exists g, gcd a b = Some g
    /\ Z.abs g = Z.gcd a b
    /\ (0 <= a -> 0 <= b -> g = Z.gcd a b).
Proof.
  destruct (gcd_loop_spec (S (Z.abs_nat b)) a b) as (g & Hg & Habs & Hs); [lia|].
  exists g. split; [done|]. split; [done|].
  intros Ha Hb. specialize (Hs Ha Hb). lia.
Qed.

(** X1.  [gcd] returns for all integers; the absolute value of its result
    is the greatest common divisor, and for non-negative arguments the
    result itself is. *)
Theorem gcd_returns a b :
  exists g, gcd a b = Some g
    /\ Z.abs g = Z.gcd a b
    /\ (0 <= a -> 0 <= b -> g = Z.gcd a b).
Proof.
  destruct (gcd_loop_spec (S (Z.abs_nat b)) a b) as (g & Hg & Habs & Hs); [lia|].
  exists g. split; [done|]. split; [done|].
  intros Ha Hb. specialize (Hs Ha Hb). lia.
Qed.

(** X2.  [simplify_ratio] raises [ZeroDivisionError] exactly for
    [w = h = 0]; for every other pair it returns ["p:q"] where [p : q] is
    the ratio [w : h] in lowest terms. *)
Theorem simplify_ratio_lowest_terms w h :
  (simplify_ratio w h = ZeroDivisionError <-> w = 0 /\ h = 0)
  /\ (w <> 0 \/ h <> 0 ->
      exists p q,
        simplify_ratio w h = Returns (pretty p +:+ ":" +:+ pretty q)%string
        /\ p * h = q * w
        /\ Z.gcd p q = 1
        /\ (0 < w -> 0 < h -> 0 < p /\ 0 < q)).
Proof.
  destruct (gcd_spec w h) as (g & Hg & Habs & Hpos).
  assert (Z.gcd w h = 0 <-> w = 0 /\ h = 0) as Hz by apply Z.gcd_eq_0.
  assert (w <> 0 \/ h <> 0 ->
          exists p q, g <> 0 /\ w `div` g = p /\ h `div` g = q
                      /\ w = p * g /\ h = q * g /\ Z.gcd p q = 1) as Hpq.
  { intros Hne. assert (g <> 0) as Hg0 by lia.
    destruct (Z.gcd_divide_l w h) as [p0 Hp0], (Z.gcd_divide_r w h) as [q0 Hq0].
    rewrite <- Habs in Hp0, Hq0.
    assert (exists p, w = p * g) as [p Hp].
    { destruct (Z.abs_eq_or_opp g) as [E|E]; rewrite E in Hp0;
        [by exists p0|exists (- p0); lia]. }
    assert (exists q, h = q * g) as [q Hq].
    { destruct (Z.abs_eq_or_opp g) as [E|E]; rewrite E in Hq0;
        [by exists q0|exists (- q0); lia]. }
    exists p, q. split; [done|].
    split; [by rewrite Hp, Z.div_mul|]. split; [by rewrite Hq, Z.div_mul|].
    split; [done|]. split; [done|].
    assert (Z.gcd w h = Z.gcd p q * Z.abs g) as Hmul.
    { rewrite Hp, Hq. apply Z.gcd_mul_mono_r. }
    pose proof (Z.gcd_nonneg p q). nia. }
  unfold simplify_ratio. rewrite Hg. split.
  - destruct (Z.eqb_spec g 0) as [->|Hg0].
    + split; [intros _; apply Hz; by rewrite <- Habs|done].
    + split; [done|]. intros [-> ->]. simpl in Habs. lia.
  - intros Hne. destruct (Hpq Hne) as (p & q & Hg0 & Hp & Hq & Ew & Eh & Hgcd).
    exists p, q. destruct (Z.eqb_spec g 0) as [?|_]; [done|].
    rewrite Hp, Hq. split; [done|]. split; [rewrite Ew, Eh at 1; ring|].
    split; [done|]. intros Hw Hh.
    assert (g = Z.gcd w h) as Eg by (apply Hpos; lia).
    pose proof (Z.gcd_nonneg w h). nia.
Qed.

(** X3.  The ratio does not depend on the scale: [k * w] by [k * h] has
    the ratio of [w] by [h]. *)
Theorem simplify_ratio_scale k w h :
  0 < k -> 0 < w -> 0 < h ->
  simplify_ratio (k * w) (k * h) = simplify_ratio w h.
Proof.
  intros Hk Hw Hh.
  destruct (gcd_spec w h) as (g & Hg & _ & Eg).
  destruct (gcd_spec (k * w) (k * h)) as (g' & Hg' & _ & Eg').
  rewrite Eg in Hg by lia. rewrite Eg' in Hg' by nia.
  rewrite Z.gcd_mul_mono_l_nonneg in Hg' by lia.
  assert (Z.gcd w h <> 0) as Hne.
  { intros E. apply Z.gcd_eq_0 in E. lia. }
  unfold simplify_ratio. rewrite Hg, Hg'.
  destruct (Z.eqb_spec (k * Z.gcd w h) 0) as [E|_]; [nia|].
  destruct (Z.eqb_spec (Z.gcd w h) 0) as [E|_]; [done|].
  by rewrite !Z.div_mul_cancel_l by lia.
Qed.

Lemma simplify_ratio_lowest_terms_witness :
  simplify_ratio 1920 1080 = Returns "16:9"%string
  /\ simplify_ratio 0 0 = ZeroDivisionError.
Proof.
  destruct (simplify_ratio_lowest_terms 0 0) as [[_ Hz] _].
  split; [vm_compute; reflexivity|]. by apply Hz.
Defined.

Lemma simplify_ratio_scale_witness :
  simplify_ratio (120 * 16) (120 * 9) = simplify_ratio 16 9.
Proof. apply (simplify_ratio_scale 120 16 9); lia. Defined.

(** ** The configuration file *)

(** X4.  What [save_config] writes, [load_config] reads back: the four
    values of the file are the ones that were saved, whatever the file held
    before and whatever the defaults are. *)
Theorem load_after_save_config sizes default_w default_h save_location file cwd :
  load_config (save_config true sizes default_w default_h save_location file) cwd
  = (JArr (JNum <$> sizes), JNum default_w, JNum default_h, JStr save_location).
Proof. reflexivity. Qed.

(** X5.  A configuration file that lacks some keys is completed key by
    key: values present in the file are kept, the others take their
    defaults, and a file that is absent, unreadable or not a JSON object
    gives all four defaults. *)
Theorem load_config_defaults file cwd :
  let defaults := (JArr (JNum <$> DEFAULT_SIZES), JNum 800, JNum 600, JStr cwd) in
  (forall config key v,
     file = Parsed (JObj config) ->
     NoDup config.*1 -> (key, v) ∈ config ->
     (key = "sizes"%string -> (load_config file cwd).1.1.1 = v)
     /\ (key = "default_w"%string -> (load_config file cwd).1.1.2 = v)
     /\ (key = "default_h"%string -> (load_config file cwd).1.2 = v)
     /\ (key = "save_location"%string -> (load_config file cwd).2 = v))
  /\ (forall config,
        file = Parsed (JObj config) ->
        ("sizes"%string ∉ config.*1 -> (load_config file cwd).1.1.1 = defaults.1.1.1)
        /\ ("default_w"%string ∉ config.*1 -> (load_config file cwd).1.1.2 = defaults.1.1.2)
        /\ ("default_h"%string ∉ config.*1 -> (load_config file cwd).1.2 = defaults.1.2)
        /\ ("save_location"%string ∉ config.*1 -> (load_config file cwd).2 = defaults.2))
  /\ ((forall config, file <> Parsed (JObj config)) -> load_config file cwd = defaults).
Proof.
  assert (forall key d config v,
            NoDup config.*1 -> (key, v) ∈ config -> dict_get key d config = v) as Hin.
  { intros key d config v. induction config as [|[k v'] config IH]; intros Hnd Hv.
    - by apply elem_of_nil in Hv.
    - simpl. apply NoDup_cons in Hnd as [Hk Hnd].
      apply elem_of_cons in Hv as [[= <- <-]|Hv].
      + by rewrite bool_decide_eq_true_2.
      + case_bool_decide as E; [|by apply IH].
        subst k. exfalso. apply Hk. apply list_elem_of_fmap.
        by exists (key, v). }
  assert (forall key d config, key ∉ config.*1 -> dict_get key d config = d) as Hout.
  { intros key d config. induction config as [|[k v'] config IH]; intros Hk; [done|].
    simpl in *. apply not_elem_of_cons in Hk as [Hne Hk].
    case_bool_decide; [done|]. by apply IH. }
  cbv zeta. split_and!.
  - intros config key v -> Hnd Hv. simpl.
    split_and!; intros ->; by apply Hin.
  - intros config ->. simpl. split_and!; intros Hk; by apply Hout.
  - intros Hno. destruct file as [| |j]; try done.
    destruct j; try done. by destruct (Hno members).
Qed.

(** ** What the overlays draw *)

(** X6.  The rectangle previewed on the overlay of any screen, moved back
    to global coordinates, is the rectangle [capture_from_coordinates]
    composites for the same two points. *)
Theorem preview_rect_is_capture_rect screen_geom b e :
  let c := coordinates_bounds b e in
  translated (preview_rect screen_geom b e) (QRect.topLeft screen_geom)
  = QRect.make (bx1 c) (by1 c) (bwidth c) (bheight c).
Proof.
  unfold translated, preview_rect, coordinates_bounds, bwidth, bheight, QRect.make,
    QRect.topLeft, QPoint.sub. simpl.
  f_equal; lia.
Qed.

(** X7.  On an overlay at least 100 pixels wide and 20 pixels high the
    size text is anchored inside the overlay, its background lies between
    the top and the bottom edge, starts at most 2 pixels left of the
    overlay, and ends before the right edge when the text has at most 12
    characters. *)
Theorem text_position_inside rect width height len :
  100 <= width -> 20 <= height -> 0 <= len ->
  let pos := text_position rect width height in
  let bg := text_rect pos.1 pos.2 len in
  0 <= pos.1 <= width - 100
  /\ 15 <= pos.2 <= height - 5
  /\ -2 <= QRect.x1 bg
  /\ 0 <= QRect.y1 bg
  /\ QRect.y2 bg < height
  /\ (len <= 12 -> QRect.x2 bg < width).
Proof.
  intros Hw Hh Hl. unfold text_position, text_rect, QRect.make. simpl.
  destruct (_ <? width), (_ <? height); lia.
Qed.

Lemma text_position_inside_witness :
  let pos := text_position (QRect.make 1800 1000 100 60) 1920 1080 in
  let bg := text_rect pos.1 pos.2 9 in
  pos = (1700, 990)
  /\ 0 <= pos.1 <= 1920 - 100
  /\ 15 <= pos.2 <= 1080 - 5
  /\ -2 <= QRect.x1 bg
  /\ 0 <= QRect.y1 bg
  /\ QRect.y2 bg < 1080
  /\ (9 <= 12 -> QRect.x2 bg < 1920).
Proof.
  cbv zeta. split; [reflexivity|].
  apply (text_position_inside (QRect.make 1800 1000 100 60) 1920 1080 9); lia.
Defined.

(** ** The pixels of the composite *)

Lemma composite_fold_untouched x1 y1 rect shots P px py :
  (forall item, item ∈ shots ->
     ~ QRect.covers (QRect.intersected rect (geometry item.2)) (px + x1) (py + y1)) ->
  QPixmap.data (selection (foldl (composite_screen x1 y1 rect) P shots)) px py
  = QPixmap.data (selection P) px py.
Proof.
  revert P. induction shots as [|item shots IH]; intros P Hno; simpl; [done|].
  rewrite IH by (intros other ?; apply Hno; by right).
  rewrite composite_screen_data. cbv zeta.
  case_bool_decide as Hc; [|by rewrite andb_false_r].
  exfalso. apply (Hno item); [by left|done].
Qed.

Lemma matching_geometry_spans sd px py :
  buffer_matches sd ->
  QRect.isNull (geometry sd) = false
  /\ (QRect.covers (geometry sd) px py -> spans (geometry sd) px py).
Proof.
  intros (Hw & Hh & Hg). rewrite Hg.
  unfold QRect.isNull, spans, QRect.covers, QRect.lo, QRect.hi, QRect.make. simpl.
  split.
  - apply andb_false_intro1. apply Z.eqb_neq. lia.
  - destruct (Z.ltb_spec (QRect.x (geometry sd) + QPixmap.width (pixmap sd) - 1
                          - QRect.x (geometry sd) + 1) 0); [lia|].
    destruct (Z.ltb_spec (QRect.y (geometry sd) + QPixmap.height (pixmap sd) - 1
                          - QRect.y (geometry sd) + 1) 0); [lia|]. done.
Qed.

(** A screen whose snapshot has the size of its geometry passes the
    validation wherever the selection meets it. *)
Lemma matching_overlap_blits rect i sd px py :
  buffer_matches sd ->
  QRect.covers (QRect.intersected rect (geometry sd)) px py ->
  blits rect (i, sd) = true.
Proof.
  intros (Hw & Hh & Hg) Hc. unfold blits. simpl.
  rewrite (covers_nonempty _ _ _ Hc). simpl.
  assert (QPixmap.isNull (pixmap sd) = false) as ->.
  { unfold QPixmap.isNull. apply orb_false_intro; apply Z.leb_gt; lia. }
  simpl. revert Hc. rewrite Hg.
  set (gx := QRect.x (geometry sd)). set (gy := QRect.y (geometry sd)).
  set (W := QPixmap.width (pixmap sd)) in *. set (H := QPixmap.height (pixmap sd)) in *.
  unfold QRect.intersected.
  destruct (_ || _); [unfold QRect.covers; simpl; lia|].
  cbv zeta.
  destruct (_ || _); [unfold QRect.covers; simpl; lia|].
  destruct (_ || _); [unfold QRect.covers; simpl; lia|].
  intros _. unfold src_valid, QRect.x, QRect.y, QRect.width, QRect.height, QRect.make,
    QRect.lo, QRect.hi. simpl.
  destruct (Z.ltb_spec (gx + W - 1 - gx + 1) 0); [lia|].
  destruct (Z.ltb_spec (gy + H - 1 - gy + 1) 0); [lia|].
  repeat (apply andb_true_intro; split); apply Z.leb_le; lia.
Qed.

Lemma selection_spans x1 y1 width height px py :
  0 <= px < width -> 0 <= py < height ->
  QRect.isNull (QRect.make x1 y1 width height) = false
  /\ spans (QRect.make x1 y1 width height) (px + x1) (py + y1).
Proof.
  intros Hx Hy. unfold QRect.isNull, spans, QRect.lo, QRect.hi, QRect.make. simpl.
  split.
  - apply andb_false_intro1. apply Z.eqb_neq. lia.
  - destruct (Z.ltb_spec (x1 + width - 1 - x1 + 1) 0); [lia|].
    destruct (Z.ltb_spec (y1 + height - 1 - y1 + 1) 0); [lia|]. lia.
Qed.

(** X8.  With pairwise non-overlapping geometries, every pixel of the
    selection that lies on a screen whose snapshot has the size of its
    geometry is that screen's pixel at the corresponding offset: no gap and
    no duplication at the boundaries between screens. *)
Theorem composite_pixel_from_screen x1 y1 width height shots i sd px py :
  pairwise_disjoint shots = true ->
  (i, sd) ∈ shots ->
  buffer_matches sd ->
  0 <= px < width -> 0 <= py < height ->
  QRect.covers (geometry sd) (px + x1) (py + y1) ->
  QPixmap.pixelAt (selection (composite x1 y1 width height shots)) px py
  = QPixmap.pixelAt (pixmap sd) (px + x1 - QRect.x (geometry sd))
                                (py + y1 - QRect.y (geometry sd)).
Proof.
  intros Hd Hin Hm Hx Hy Hc.
  set (rect := QRect.make x1 y1 width height).
  destruct (selection_spans x1 y1 width height px py Hx Hy) as [Hnr Hsr].
  destruct (matching_geometry_spans sd (px + x1) (py + y1) Hm) as [Hng Hsg].
  pose proof (spans_intersected rect (geometry sd) _ _ Hnr Hng Hsr (Hsg Hc)) as Hov.
  apply list_elem_of_split in Hin as (l1 & l2 & ->).
  assert (forall other, other ∈ l1 ++ l2 ->
            ~ QRect.covers (QRect.intersected rect (geometry other.2)) (px + x1) (py + y1))
    as Hothers.
  { assert (pairwise_disjoint ((i, sd) :: l1 ++ l2) = true) as Hd'.
    { eapply pairwise_disjoint_perm; [|exact Hd]. by rewrite Permutation_middle. }
    apply pairwise_disjoint_cons in Hd' as [Hd' _].
    intros other Ho Hco. eapply overlaps_disjoint; [apply (Hd' other Ho)|exact Hov|exact Hco]. }
  unfold composite.
  set (P := {| selection := QPixmap.transparent width height; ops := [] |}).
  destruct (composite_fold_size x1 y1 rect P (l1 ++ (i, sd) :: l2)) as [Ew Eh].
  rewrite pixelAt_inside by (fold rect; rewrite ?Ew, ?Eh; simpl; lia).
  fold rect. rewrite foldl_app. simpl.
  rewrite composite_fold_untouched
    by (intros other ?; apply Hothers, elem_of_app; by right).
  rewrite composite_screen_data. cbv zeta.
  rewrite (matching_overlap_blits rect i sd _ _ Hm Hov).
  rewrite bool_decide_eq_true_2 by done. simpl.
  rewrite composite_fold_untouched
    by (intros other ?; apply Hothers, elem_of_app; by left).
  simpl. apply over_transparent.
Qed.

(** X9.  A pixel of the selection that lies on no screen stays
    transparent. *)
Theorem composite_gap_transparent x1 y1 width height shots px py :
  (forall item, item ∈ shots -> ~ spans (geometry item.2) (px + x1) (py + y1)) ->
  QPixmap.pixelAt (selection (composite x1 y1 width height shots)) px py = None.
Proof.
  intros Hno. unfold QPixmap.pixelAt. destruct (QPixmap.inside _ _ _); [|done].
  unfold composite. rewrite composite_fold_untouched; [done|].
  intros item Hin Hc. apply (Hno item Hin).
  by apply covers_intersected in Hc as (_ & ? & _).
Qed.

Lemma composite_pixel_from_screen_witness :
  QPixmap.pixelAt (selection (composite (-10) 0 19 15 test_shots)) 3 4
  = QPixmap.pixelAt (pixmap shot_left) (3 + -10 - -40) (4 + 0 - 0)
  /\ QPixmap.pixelAt (selection (composite (-10) 0 19 15 test_shots)) 3 4 = Some 20433.
Proof.
  split; [|reflexivity].
  apply (composite_pixel_from_screen (-10) 0 19 15 test_shots 1%nat shot_left 3 4);
    try lia; try reflexivity.
  - right. by left.
  - unfold buffer_matches. simpl. split_and!; [lia|lia|reflexivity].
  - unfold QRect.covers. simpl. lia.
Defined.

Lemma composite_gap_transparent_witness :
  QPixmap.pixelAt (selection (composite 30 25 20 15 test_shots)) 12 7 = None.
Proof.
  apply (composite_gap_transparent 30 25 20 15 test_shots 12 7).
  intros item Hin.
  apply elem_of_cons in Hin as [->|Hin];
    [|apply elem_of_cons in Hin as [->|Hin]; [|by apply elem_of_nil in Hin]];
    unfold spans; vm_compute; intros [[? ?] [? ?]]; congruence.
Defined.

(** ** Creating the overlays *)

(** Whatever happens in the loop, it changes only the list of overlays,
    the screenshots and the overlay windows. *)
Lemma create_overlay_loop_frame width height scrs :
  forall i a w a' w' raised,
    create_overlay_loop width height i scrs a w = (a', w', raised) ->
    last_capture a' = last_capture a
    /\ is_overlay_operation_in_progress a' = is_overlay_operation_in_progress a
    /\ is_capturing a' = is_capturing a
    /\ capture_mode a' = capture_mode a
    /\ window_visible w' = window_visible w
    /\ files w' = files w
    /\ trace w' = trace w
    /\ screens w' = screens w.
Proof.
  induction scrs as [|s scrs IH]; intros i a w a' w' raised E; simpl in E.
  - by injection E as <- <- _.
  - destruct (fault s); try (injection E as <- <- _; done);
      apply IH in E; simpl in E; done.
Qed.

Lemma create_overlay_loop_ok width height scrs :
  Forall (fun s => fault s = NoFault) scrs ->
  forall i a w,
    create_overlay_loop width height i scrs a w
    = (set_screenshots (screenshots a ++ screenshots_of i scrs)
         (set_overlays (overlays a ++ seq (length (widgets w)) (length scrs)) a),
       set_widgets
         (widgets w
          ++ ((fun s => show_overlay (new_overlay s (capture_mode a) width height))
                <$> scrs)) w,
       false).
Proof.
  induction 1 as [|s scrs Hs _ IH]; intros i a w; simpl.
  - rewrite !app_nil_r. by destruct a, w.
  - rewrite Hs, IH. simpl.
    rewrite length_alter, length_app, Nat.add_1_r. simpl.
    rewrite alter_app_r_alt by lia. rewrite Nat.sub_diag. simpl.
    rewrite <- !app_assoc. simpl. done.
Qed.

(** What [_cleanup_overlays] leaves alone, and the windows it leaves. *)
Lemma cleanup_overlays_frame a w :
  let r := _cleanup_overlays a w in
  capture_mode r.1 = capture_mode a
  /\ global_begin r.1 = global_begin a
  /\ global_end r.1 = global_end a
  /\ output_mode r.1 = output_mode a
  /\ save_location r.1 = save_location a
  /\ screens r.2 = screens w
  /\ dialog_reply r.2 = dialog_reply w
  /\ widgets r.2 = foldl (fun ws id => alter close_overlay id ws) (widgets w) (overlays a)
  /\ (is_capturing r.1 = true -> capture_mode a = Some rapid).
Proof.
  unfold _cleanup_overlays. cbv zeta. simpl.
  destruct (is_capturing a) eqn:Hc; simpl; [|split_and!; try done; congruence].
  case_bool_decide as Hm; simpl; split_and!; try done; congruence.
Qed.

(** X10.  When no screen fails, [_create_overlays] closes what was left in
    the list, then creates and shows one overlay per screen and stores one
    screenshot per screen, numbered from 0 and paired with that screen's
    geometry (the screenshots a direct capture would grab); it sets
    [is_capturing] and leaves the guard, the main window, the files and the
    last capture alone. *)
Theorem create_overlays_per_screen width height a w :
  Forall (fun s => fault s = NoFault) (screens w) ->
  let r := _create_overlays width height a w in
  overlays r.1 = seq (length (widgets w)) (length (screens w))
  /\ grab_screens 0 (screens w) = Some (screenshots r.1)
  /\ drop (length (widgets w)) (widgets r.2)
     = (fun s => show_overlay (new_overlay s (capture_mode a) width height)) <$> screens w
  /\ (forall id, id ∈ overlays a -> (id < length (widgets w))%nat ->
                 torn_down (widgets r.2) id)
  /\ is_capturing r.1 = true
  /\ is_overlay_operation_in_progress r.1 = is_overlay_operation_in_progress a
  /\ window_visible r.2 = window_visible w
  /\ files r.2 = files w
  /\ last_capture r.1 = last_capture a.
Proof.
  intros Hok.
  assert (forall i scrs, Forall (fun s => fault s = NoFault) scrs ->
            grab_screens i scrs = Some (screenshots_of i scrs)) as Hgrab.
  { intros i scrs H. revert i. induction H as [|s scrs Hs _ IH]; intros i; simpl; [done|].
    by rewrite Hs, IH. }
  unfold _create_overlays.
  destruct (cleanup_overlays_spec a w) as (_ & _ & Hlast & Hbusy & Hvis & Hfiles & _ & Htorn).
  destruct (cleanup_overlays_frame a w) as (Hmode & _ & _ & _ & _ & Hscr & _ & Hwid & _).
  destruct (_cleanup_overlays a w) as [a1 w1]. simpl in *. cbv zeta.
  rewrite create_overlay_loop_ok by (by rewrite Hscr).
  rewrite Hwid in Htorn. rewrite Hscr, Hwid, close_all_length. simpl.
  destruct (bool_decide _); simpl;
    (split_and!;
     [done
     |by apply Hgrab
     |by rewrite drop_app_length'; [rewrite Hmode|rewrite close_all_length]
     |intros id Hid Hlt o Ho;
      rewrite lookup_app_l in Ho by (by rewrite close_all_length);
      by apply (Htorn id Hid)
     |done..]).
Qed.

(** ** Rejected requests and ignored events *)

(** X11.  While the guard is set, clicks on the three capture buttons, in
    any number and order, change nothing at all. *)
Theorem start_buttons_rejected_while_busy steps a w :
  Forall (fun s => is_start_button s = true) steps ->
  is_overlay_operation_in_progress a = true ->
  run steps (a, w) = (a, w).
Proof.
  intros Hs Hbusy. unfold run. induction Hs as [|s steps Hs _ IH]; [done|].
  change (foldl (fun st s => step s st) (step s (a, w)) steps = (a, w)).
  assert (step s (a, w) = (a, w)) as ->; [|done].
  destruct s; try done; simpl.
  - unfold start_freehand_capture. by rewrite Hbusy.
  - unfold start_fixed_capture. by rewrite Hbusy.
  - unfold start_rapid_capture. by rewrite Hbusy.
Qed.

(** X12.  While [is_capturing] is not set, mouse and key events delivered
    to any overlay, in any number and order, change nothing at all. *)
Theorem overlay_events_ignored_unless_capturing steps a w :
  Forall (fun s => is_overlay_event s = true) steps ->
  is_capturing a = false ->
  run steps (a, w) = (a, w).
Proof.
  intros Hs Hcap. unfold run. induction Hs as [|s steps Hs _ IH]; [done|].
  change (foldl (fun st s => step s st) (step s (a, w)) steps = (a, w)).
  assert (step s (a, w) = (a, w)) as ->; [|done].
  destruct s; try done; simpl.
  - unfold mousePressEvent. rewrite Hcap, andb_false_r. by destruct (_ !! _).
  - unfold mouseMoveEvent. rewrite Hcap. by destruct (_ !! _).
  - unfold mouseReleaseEvent. rewrite Hcap, andb_false_r. by destruct (_ !! _).
  - unfold keyPressEvent. rewrite Hcap, andb_false_r. by destruct (_ !! _).
Qed.

(** ** Invariants of the session *)

Lemma process_output_frame a x1 y1 width height sel w :
  window_visible (process_output a x1 y1 width height sel w) = window_visible w
  /\ screens (process_output a x1 y1 width height sel w) = screens w
  /\ dialog_reply (process_output a x1 y1 width height sel w) = dialog_reply w.
Proof.
  unfold process_output. destruct (output_mode a); [done| |].
  - by destruct (fixed_location_path _ _ _ _ _ _).
  - by case_bool_decide.
Qed.

(** [finish_capture] either keeps the last capture or stores its two end
    points, both set, keeping or replacing the image. *)
Lemma finish_capture_last_capture a w :
  let r := finish_capture a w in
  last_capture r.1 = last_capture a
  \/ (QPoint.isNull (global_begin a) = false
      /\ QPoint.isNull (global_end a) = false
      /\ last_capture_begin r.1 = Some (global_begin a)
      /\ last_capture_end r.1 = Some (global_end a)
      /\ (last_capture_pixmap r.1 = last_capture_pixmap a
          \/ exists pm, last_capture_pixmap r.1 = Some pm)).
Proof.
  destruct (QPoint.isNull (global_begin a) || QPoint.isNull (global_end a)) eqn:Hn.
  - left. by destruct (finish_capture_null_abort a w Hn) as (_ & _ & ?).
  - right. apply orb_false_elim in Hn as Hn'. destruct Hn' as [Hb He].
    destruct (finish_capture_stores_endpoints a w Hn) as [? ?].
    split_and!; try done.
    unfold finish_capture. cbv zeta. rewrite Hn. simpl.
    destruct (_ && _); simpl; destruct (_ && negb _); eauto.
Qed.

Lemma create_overlays_frame width height a w :
  let r := _create_overlays width height a w in
  last_capture r.1 = last_capture a
  /\ files r.2 = files w
  /\ (window_visible r.2 = true /\ is_overlay_operation_in_progress r.1 = false
      \/ window_visible r.2 = window_visible w
         /\ is_overlay_operation_in_progress r.1 = is_overlay_operation_in_progress a).
Proof.
  unfold _create_overlays.
  destruct (cleanup_overlays_spec a w) as (_ & _ & Hlast & Hbusy & Hvis & Hfiles & _ & _).
  destruct (_cleanup_overlays a w) as [a1 w1]. simpl in *. cbv zeta.
  destruct (create_overlay_loop _ _ _ _ _ _) as [[a3 w3] raised] eqn:E.
  apply create_overlay_loop_frame in E as (El & Eb & _ & _ & Ev & Ef & _ & _).
  simpl in *. unfold last_capture in *. simpl in *.
  destruct raised; [|destruct (bool_decide _)]; simpl;
    (split_and!; [congruence|congruence|]); [left|right|right]; split; congruence.
Qed.

(** What a step does to the guard and to the main window: it shows the
    window, or sets the guard, or leaves both as they are. *)
Lemma step_guard_window s a w :
  let r := step s (a, w) in
  window_visible r.2 = true
  \/ is_overlay_operation_in_progress r.1 = true
  \/ (window_visible r.2 = window_visible w
      /\ is_overlay_operation_in_progress r.1 = is_overlay_operation_in_progress a).
Proof.
  assert (forall a w, window_visible (finish_capture a w).2 = true) as Hfin.
  { intros a' w'. by destruct (finish_capture_idle a' w') as [(_ & _ & ?) _]. }
  assert (forall a w, window_visible (show (_cleanup_overlays a w).2) = true) as Hshow by done.
  destruct s; simpl.
  - unfold start_freehand_capture. destruct (is_overlay_operation_in_progress a) eqn:E; auto.
  - unfold start_fixed_capture. destruct (is_overlay_operation_in_progress a) eqn:E; auto.
  - unfold start_rapid_capture. destruct (is_overlay_operation_in_progress a) eqn:E; auto.
    destruct (last_capture_begin a), (last_capture_end a); auto.
    right. right. unfold capture_from_coordinates. cbv zeta.
    destruct (_ && _); [|done].
    destruct (grab_screens _ _); [|done]. simpl.
    split; [|done].
    match goal with
    | |- context [ process_output ?A ?x ?y ?wd ?ht ?sl ?W ] =>
        by destruct (process_output_frame A x y wd ht sl W) as (-> & _)
    end.
  - destruct (create_overlays_frame width height a w) as (_ & _ & [[? ?]|[? ?]]); auto.
  - unfold mousePressEvent. destruct (_ !! _) as [self|]; auto.
    destruct (_ && _); auto. destruct (mode self) as [[| |]|]; auto.
    destruct (QRect.contains _ _); auto.
  - unfold mouseMoveEvent. destruct (_ !! _) as [self|]; auto.
    destruct (is_capturing a); auto. destruct (_ || _); auto. destruct (_ && _); auto.
  - unfold mouseReleaseEvent. destruct (_ !! _) as [self|]; auto.
    destruct (_ && is_capturing a); auto. destruct (_ || _); auto.
    destruct (_ && is_drawing self); auto. cbv zeta.
    destruct (_ || _); [|by left].
    left. by destruct (_cleanup_overlays _ _).
  - unfold keyPressEvent. destruct (_ !! _) as [self|]; auto.
    destruct (_ && _); auto.
Qed.

(** X13.  The main window is hidden only while the guard is set: no
    sequence of clicks, timer callbacks and overlay events, with or without
    failing screens, leaves the window hidden and the guard clear. *)
Theorem run_hidden_only_when_busy steps st :
  hidden_only_when_busy st -> hidden_only_when_busy (run steps st).
Proof.
  unfold run. revert st. induction steps as [|s steps IH]; intros st H; [done|].
  change (hidden_only_when_busy (foldl (fun st s => step s st) (step s st) steps)).
  apply IH. destruct st as [a w]. unfold hidden_only_when_busy in *.
  destruct (step_guard_window s a w) as [Hv|[Hb|[Hv Hb]]]; simpl in *.
  - intros E. congruence.
  - done.
  - rewrite Hv, Hb. done.
Qed.

(** A step keeps the last capture, or stores two end points that are both
    set, keeping or replacing the image. *)
Lemma step_last_capture s a w :
  let r := step s (a, w) in
  last_capture r.1 = last_capture a
  \/ (exists b e,
        QPoint.isNull b = false /\ QPoint.isNull e = false
        /\ last_capture_begin r.1 = Some b
        /\ last_capture_end r.1 = Some e
        /\ (last_capture_pixmap r.1 = last_capture_pixmap a
            \/ exists pm, last_capture_pixmap r.1 = Some pm)).
Proof.
  assert (forall a' w', last_capture a' = last_capture a ->
            let r := finish_capture a' w' in
            last_capture r.1 = last_capture a
            \/ (exists b e,
                  QPoint.isNull b = false /\ QPoint.isNull e = false
                  /\ last_capture_begin r.1 = Some b
                  /\ last_capture_end r.1 = Some e
                  /\ (last_capture_pixmap r.1 = last_capture_pixmap a
                      \/ exists pm, last_capture_pixmap r.1 = Some pm))) as Hfin.
  { intros a' w' Ha'. cbv zeta.
    destruct (finish_capture_last_capture a' w') as [->|(Hb & He & Eb & Ee & Hpm)];
      [by left|right].
    exists (global_begin a'), (global_end a'). split_and!; try done.
    assert (last_capture_pixmap a' = last_capture_pixmap a) as <-; [|done].
    unfold last_capture in Ha'. congruence. }
  assert (forall a' w', last_capture a' = last_capture a ->
            last_capture (_cleanup_overlays a' w').1 = last_capture a) as Hclean.
  { intros a' w' <-. by destruct (cleanup_overlays_spec a' w') as (_ & _ & ? & _). }
  destruct s; simpl.
  - left. unfold start_freehand_capture. by destruct (is_overlay_operation_in_progress a).
  - left. unfold start_fixed_capture. by destruct (is_overlay_operation_in_progress a).
  - left. unfold start_rapid_capture. destruct (is_overlay_operation_in_progress a); [done|].
    destruct (last_capture_begin a) eqn:Eb, (last_capture_end a) eqn:Ee; try done.
    match goal with
    | |- context [ capture_from_coordinates ?b ?e ?A w ] =>
        destruct (capture_from_coordinates_spec b e A w) as (-> & _)
    end.
    unfold last_capture. simpl. by rewrite Eb, Ee.
  - left. by destruct (create_overlays_frame width height a w) as (? & _).
  - unfold mousePressEvent. destruct (_ !! _) as [self|]; [|by left].
    destruct (_ && _); [|by left]. destruct (mode self) as [[| |]|]; try by left.
    + left. by destruct (QRect.contains _ _).
    + by apply Hfin.
  - left. unfold mouseMoveEvent. destruct (_ !! _) as [self|]; [|done].
    destruct (is_capturing a); [|done]. destruct (_ || _); [done|].
    by destruct (_ && _).
  - unfold mouseReleaseEvent. destruct (_ !! _) as [self|]; [|by left].
    destruct (_ && is_capturing a); [|by left]. destruct (_ || _); [by left|].
    destruct (_ && is_drawing self); [|by left]. cbv zeta.
    destruct (_ || _).
    + left.
      match goal with
      | |- context [ _cleanup_overlays ?A ?W ] =>
          pose proof (Hclean A W eq_refl) as Hc; by destruct (_cleanup_overlays A W)
      end.
    + by apply Hfin.
  - left. unfold keyPressEvent. destruct (_ !! _) as [self|]; [|done].
    destruct (_ && _); [|done].
    match goal with
    | |- context [ _cleanup_overlays ?A ?W ] =>
        pose proof (Hclean A W eq_refl) as Hc; by destruct (_cleanup_overlays A W)
    end.
Qed.

(** X14.  The stored last capture stays consistent through every sequence
    of clicks, timer callbacks and overlay events: its two end points are
    set together and are never the null point, and an image is stored only
    together with end points. *)
Theorem run_last_capture_consistent steps st :
  last_capture_consistent st.1 -> last_capture_consistent (run steps st).1.
Proof.
  unfold run. revert st. induction steps as [|s steps IH]; intros st H; [done|].
  change (last_capture_consistent (foldl (fun st s => step s st) (step s st) steps).1).
  apply IH. destruct st as [a w]. simpl in H.
  pose proof (step_last_capture s a w) as Hs. cbv zeta in Hs.
  destruct (step s (a, w)) as [a' w']. simpl in Hs |- *.
  destruct Hs as [E|(b & e & Hb & He & Eb & Ee & Hpm)].
  - unfold last_capture_consistent, last_capture in *.
    injection E as -> -> ->. done.
  - destruct H as (_ & _ & _ & Hpix).
    unfold last_capture_consistent. rewrite Eb, Ee. split_and!; try done.
    + by intros p [= <-].
    + by intros p [= <-].
Qed.

(** ** A capture that succeeds *)

Lemma process_output_app a a' x1 y1 width height sel w :
  output_mode a' = output_mode a -> save_location a' = save_location a ->
  process_output a' x1 y1 width height sel w = process_output a x1 y1 width height sel w.
Proof. intros Hm Hl. unfold process_output. by rewrite Hm, Hl. Qed.

(** With both end points set, the end point more than 10 pixels below
    the begin point and the two more than 10 pixels apart horizontally,
    [finish_capture] composites the normalised rectangle from the stored
    screenshots, hands the image to the output step, stores the capture
    and resets the selection. *)
Lemma finish_capture_composites a w :
  QPoint.isNull (global_begin a) = false ->
  QPoint.isNull (global_end a) = false ->
  10 < Z.abs (QPoint.x (global_end a) - QPoint.x (global_begin a)) ->
  QPoint.y (global_begin a) + 10 < QPoint.y (global_end a) ->
  let c := coordinates_bounds (global_begin a) (global_end a) in
  let painter := composite (bx1 c) (by1 c) (bwidth c) (bheight c) (screenshots a) in
  let delivered := process_output a (bx1 c) (by1 c) (bwidth c) (bheight c)
                     (selection painter)
                     (emit (Composite (QRect.make (bx1 c) (by1 c) (bwidth c) (bheight c))
                                      (ops painter)) w) in
  let r := finish_capture a w in
  last_capture r.1 = (Some (global_begin a), Some (global_end a), Some (selection painter))
  /\ global_begin r.1 = QPoint.null /\ global_end r.1 = QPoint.null
  /\ is_capturing r.1 = false
  /\ toggleFrameBtn_enabled r.1 = true
  /\ output_mode r.1 = output_mode a
  /\ trace r.2 = trace delivered
  /\ files r.2 = files delivered.
Proof.
  intros Hb He Hw Hh c painter delivered r.
  assert (finish_bounds (global_begin a) (global_end a) = c) as Hfb
    by (apply finish_bounds_downward; lia).
  destruct (coordinates_bounds_normalized (global_begin a) (global_end a))
    as (_ & _ & _ & _ & Ew & Eh). fold c in Ew, Eh.
  unfold r, finish_capture. cbv zeta. rewrite Hb, He. simpl orb. cbv iota.
  simpl global_begin. simpl global_end. rewrite Hfb.
  rewrite (proj2 (Z.ltb_lt 10 (bwidth c))) by lia.
  rewrite (proj2 (Z.ltb_lt 10 (bheight c))) by lia. simpl andb. cbv iota.
  simpl screenshots.
  rewrite (process_output_app a) by done. fold painter. fold delivered.
  destruct (cleanup_overlays_spec
              (set_last_capture_pixmap (Some (selection painter))
                 (set_last_capture_end (Some (global_end a))
                    (set_last_capture_begin (Some (global_begin a)) a))) delivered)
    as (_ & _ & Hl & _ & _ & Hf & Ht & _).
  destruct (cleanup_overlays_frame
              (set_last_capture_pixmap (Some (selection painter))
                 (set_last_capture_end (Some (global_end a))
                    (set_last_capture_begin (Some (global_begin a)) a))) delivered)
    as (_ & _ & _ & Hm & _).
  destruct (_cleanup_overlays _ delivered) as [a4 w4]. simpl in *.
  by split_and!.
Qed.

(** X15.  A successful [finish_capture] (both end points set, more than
    10 pixels apart horizontally, the end point more than 10 pixels below
    the begin point) stores the session's two end points and the
    composited image as the last capture, resets the selection, clears
    [is_capturing], enables the toggle button and leaves the application
    idle with its overlays closed. *)
Theorem finish_capture_success a w :
  QPoint.isNull (global_begin a) = false ->
  QPoint.isNull (global_end a) = false ->
  10 < Z.abs (QPoint.x (global_end a) - QPoint.x (global_begin a)) ->
  QPoint.y (global_begin a) + 10 < QPoint.y (global_end a) ->
  let c := coordinates_bounds (global_begin a) (global_end a) in
  let painter := composite (bx1 c) (by1 c) (bwidth c) (bheight c) (screenshots a) in
  let r := finish_capture a w in
  last_capture r.1 = (Some (global_begin a), Some (global_end a), Some (selection painter))
  /\ global_begin r.1 = QPoint.null /\ global_end r.1 = QPoint.null
  /\ is_capturing r.1 = false
  /\ toggleFrameBtn_enabled r.1 = true
  /\ idle r.1 r.2
  /\ (forall id, id ∈ overlays a -> torn_down (widgets r.2) id).
Proof.
  intros Hb He Hw Hh c painter r.
  destruct (finish_capture_composites a w Hb He Hw Hh) as (? & ? & ? & ? & ? & _).
  destruct (finish_capture_idle a w) as [? ?].
  by split_and!.
Qed.

(** X16.  Whatever the end points are, a compositing by [finish_capture]
    is for the normalised rectangle of the two end points and reads the
    screenshots taken when the overlays were created: the upward-drag
    defect can make it reject a selection, never composite a wrong one. *)
Theorem finish_capture_composites_normalised a w :
  let c := coordinates_bounds (global_begin a) (global_end a) in
  let r := finish_capture a w in
  exists added,
    trace r.2 = trace w ++ added
    /\ forall rect ops', Composite rect ops' ∈ added ->
         rect = QRect.make (bx1 c) (by1 c) (bwidth c) (bheight c)
         /\ ops' = ops (composite (bx1 c) (by1 c) (bwidth c) (bheight c) (screenshots a)).
Proof.
  intros c r.
  destruct (finish_capture_trace a w) as (added & Ht & [->|[Hw Hh]]).
  { exists []. split; [done|]. intros ? ? Hin. by apply elem_of_nil in Hin. }
  destruct (QPoint.isNull (global_begin a) || QPoint.isNull (global_end a)) eqn:Hn.
  { exists []. destruct (finish_capture_null_abort a w Hn) as (E & _).
    unfold r. rewrite E, app_nil_r. split; [done|].
    intros ? ? Hin. by apply elem_of_nil in Hin. }
  apply orb_false_elim in Hn as [Hb He].
  assert (QPoint.y (global_begin a) <= QPoint.y (global_end a)) as Hdown.
  { destruct (Z.lt_ge_cases (QPoint.y (global_end a)) (QPoint.y (global_begin a)))
      as [Hup|?]; [|done].
    apply finish_bounds_upward in Hup as [_ Hz]. lia. }
  rewrite finish_bounds_downward in Hw, Hh by done. fold c in Hw, Hh.
  destruct (coordinates_bounds_normalized (global_begin a) (global_end a))
    as (_ & _ & _ & _ & Ew & Eh). fold c in Ew, Eh.
  destruct (finish_capture_composites a w Hb He) as (_ & _ & _ & _ & _ & _ & Etr & _);
    [lia|lia|].
  fold c in Etr.
  match type of Etr with
  | _ = trace (process_output ?A ?x ?y ?wd ?ht ?sl ?W) =>
      destruct (process_output_trace A x y wd ht sl W) as (out & Ho & Hout)
  end.
  simpl in Ho. rewrite <- app_assoc in Ho. simpl in Ho.
  eexists. split; [unfold r; rewrite Etr; exact Ho|].
  intros rect ops' [Heq|Hin]%elem_of_cons.
  - by injection Heq as -> ->.
  - rewrite Forall_forall in Hout. by destruct (Hout _ Hin) as [_ ?].
Qed.


(** ** A click in fixed mode *)

(** X18.  In fixed mode the frame drawn around the cursor and the
    selection committed by a click do not depend on the screen whose
    overlay is involved; the frame is [fixed_width] by [fixed_height]
    pixels, the selection runs from the frame's top-left to its
    bottom-right corner, and the rectangle that is composited is one pixel
    narrower and one pixel lower than the frame. *)
Theorem fixed_click_selection id self pos a w :
  widgets w !! id = Some self ->
  mode self = Some fixed ->
  is_capturing a = true ->
  let fw := fixed_width self in
  let fh := fixed_height self in
  let b := QPoint.make (QPoint.x pos - fw `div` 2) (QPoint.y pos - fh `div` 2) in
  let e := QPoint.make (QPoint.x b + fw - 1) (QPoint.y b + fh - 1) in
  let frame := translated (fixed_preview_rect (screen_geometry self) fw fh pos)
                          (QRect.topLeft (screen_geometry self)) in
  let w1 := if update_timer self
            then set_widgets (alter (set_update_timer false) id (widgets w)) w else w in
  let r := mousePressEvent id true pos a w in
  frame = QRect.make (QPoint.x b) (QPoint.y b) fw fh
  /\ r = finish_capture (set_global_end e (set_global_begin b a)) w1
  /\ (QPoint.isNull b = false -> QPoint.isNull e = false -> 11 < fw -> 11 < fh ->
      exists out,
        trace r.2
        = trace w
          ++ Composite (QRect.make (QPoint.x b) (QPoint.y b) (fw - 1) (fh - 1))
               (ops (composite (QPoint.x b) (QPoint.y b) (fw - 1) (fh - 1) (screenshots a)))
             :: out).
Proof.
  intros Hself Hmode Hcap fw fh b e frame w1 r.
  assert (frame = QRect.make (QPoint.x b) (QPoint.y b) fw fh) as Hframe.
  { unfold frame, translated, fixed_preview_rect, QRect.make, QRect.topLeft, QRect.x,
      QRect.y. simpl. f_equal; lia. }
  assert (r = finish_capture (set_global_end e (set_global_begin b a)) w1) as Hr.
  { unfold r, mousePressEvent. rewrite Hself, Hcap, Hmode. cbv zeta. simpl andb. cbv iota.
    fold fw fh w1.
    assert (QPoint.add
              (QRect.topLeft
                 (QRect.make (QPoint.x pos - QRect.x (screen_geometry self) - fw `div` 2)
                    (QPoint.y pos - QRect.y (screen_geometry self) - fh `div` 2) fw fh))
              (QRect.topLeft (screen_geometry self)) = b) as ->.
    { unfold b, QPoint.add, QRect.topLeft, QRect.make, QRect.x, QRect.y. simpl.
      f_equal; lia. }
    assert (QPoint.add
              (QRect.bottomRight
                 (QRect.make (QPoint.x pos - QRect.x (screen_geometry self) - fw `div` 2)
                    (QPoint.y pos - QRect.y (screen_geometry self) - fh `div` 2) fw fh))
              (QRect.topLeft (screen_geometry self)) = e) as ->.
    { unfold e, b, QPoint.add, QRect.bottomRight, QRect.topLeft, QRect.make, QRect.x,
        QRect.y. simpl. f_equal; lia. }
    done. }
  split; [done|]. split; [done|].
  intros Hb He Hw Hh. rewrite Hr.
  set (a2 := set_global_end e (set_global_begin b a)).
  destruct (finish_capture_composites a2 w1) as (_ & _ & _ & _ & _ & _ & Et & _);
    try done; try (simpl; lia).
  rewrite Et.
  match goal with
  | |- context [ process_output ?A ?x ?y ?wd ?ht ?sl ?W ] =>
      destruct (process_output_trace A x y wd ht sl W) as (out & Ho & _)
  end.
  exists out. rewrite Ho. simpl. rewrite <- app_assoc. simpl.
  assert (trace w1 = trace w) as -> by (unfold w1; by destruct (update_timer self)).
  unfold coordinates_bounds, bwidth, bheight. simpl.
  replace (QPoint.x pos - fw `div` 2 + fw - 1) with (QPoint.x pos - fw `div` 2 + (fw - 1))
    by lia.
  replace (QPoint.y pos - fh `div` 2 + fh - 1) with (QPoint.y pos - fh `div` 2 + (fh - 1))
    by lia.
  rewrite !Z.min_l, !Z.max_r by lia.
  replace (QPoint.x pos - fw `div` 2 + (fw - 1) - (QPoint.x pos - fw `div` 2))
    with (fw - 1) by lia.
  replace (QPoint.y pos - fh `div` 2 + (fh - 1) - (QPoint.y pos - fh `div` 2))
    with (fh - 1) by lia.
  done.
Qed.

(** ** A free-hand drag *)

Lemma moves_set_only_end moves :
  Forall (fun s => is_mouse_move s = true) moves ->
  forall a w, exists e, run moves (a, w) = (set_global_end e a, w).
Proof.
  unfold run. induction 1 as [|s moves Hs _ IH]; intros a w.
  - exists (global_end a). by destruct a.
  - change (exists e, foldl (fun st s => step s st) (step s (a, w)) moves
                      = (set_global_end e a, w)).
    destruct s; try done. simpl. unfold mouseMoveEvent.
    destruct (_ !! _) as [self|]; [|apply IH].
    destruct (is_capturing a); [|apply IH].
    destruct (_ || _); [apply IH|].
    destruct (_ && _); [|apply IH].
    destruct (IH (set_global_end global_pos a) w) as [e ->]. by exists e.
Qed.

(** X19.  The selection of a free-hand drag depends only on where the
    button is pressed and where it is released: mouse moves in between, on
    whichever overlay, do not change the outcome of the session. *)
Theorem freehand_drag_ignores_moves id self p q moves a w :
  widgets w !! id = Some self ->
  mode self = Some freehand ->
  is_capturing a = true ->
  QRect.contains (screen_geometry self) p = true ->
  -10000 <= QPoint.x q -> -10000 <= QPoint.y q ->
  Forall (fun s => is_mouse_move s = true) moves ->
  run (MousePress id true p :: moves ++ [MouseRelease id true q]) (a, w)
  = run [MousePress id true p; MouseRelease id true q] (a, w).
Proof.
  intros Hself Hmode Hcap Hin Hqx Hqy Hmoves. unfold run.
  change (foldl (fun st s => step s st) (step (MousePress id true p) (a, w))
            (moves ++ [MouseRelease id true q])
          = step (MouseRelease id true q) (step (MousePress id true p) (a, w))).
  rewrite foldl_app.
  assert (step (MousePress id true p) (a, w)
          = (set_global_end p (set_global_begin p a),
             set_widgets (alter (set_is_drawing true) id (widgets w)) w)) as ->.
  { simpl. unfold mousePressEvent. by rewrite Hself, Hcap, Hmode, Hin. }
  set (ap := set_global_end p (set_global_begin p a)).
  set (wp := set_widgets (alter (set_is_drawing true) id (widgets w)) w).
  destruct (moves_set_only_end moves Hmoves ap wp) as [e He].
  unfold run in He. rewrite He.
  change (mouseReleaseEvent id true q (set_global_end e ap) wp
          = mouseReleaseEvent id true q ap wp).
  unfold mouseReleaseEvent.
  assert (widgets wp !! id = Some (set_is_drawing true self)) as ->.
  { unfold wp. simpl. by rewrite list_lookup_alter_eq, Hself. }
  simpl is_capturing. rewrite Hcap. simpl andb. cbv iota.
  destruct (Z.ltb_spec (QPoint.x q) (-10000)); [lia|].
  destruct (Z.ltb_spec (QPoint.y q) (-10000)); [lia|].
  simpl orb. cbv iota. simpl mode. rewrite Hmode.
  rewrite bool_decide_eq_true_2 by done. simpl. done.
Qed.

(** ** Rapid re-capture after a capture *)

(** X20.  After a successful [finish_capture] a rapid re-capture, in any
    environment whose screens can be grabbed, composites as its first
    effect the rectangle that [finish_capture] has composited, from the
    fresh screenshots. *)
Theorem rapid_capture_after_success a w w' shots :
  QPoint.isNull (global_begin a) = false ->
  QPoint.isNull (global_end a) = false ->
  10 < Z.abs (QPoint.x (global_end a) - QPoint.x (global_begin a)) ->
  QPoint.y (global_begin a) + 10 < QPoint.y (global_end a) ->
  grab_screens 0 (screens w') = Some shots ->
  let c := coordinates_bounds (global_begin a) (global_end a) in
  let rect := QRect.make (bx1 c) (by1 c) (bwidth c) (bheight c) in
  let r := finish_capture a w in
  (exists out,
     trace r.2
     = trace w
       ++ Composite rect (ops (composite (bx1 c) (by1 c) (bwidth c) (bheight c)
                                 (screenshots a))) :: out)
  /\ (exists out,
        trace (start_rapid_capture r.1 w').2
        = trace w'
          ++ Composite rect (ops (composite (bx1 c) (by1 c) (bwidth c) (bheight c) shots))
             :: out).
Proof.
  intros Hb He Hw Hh Hg c rect r.
  destruct (finish_capture_composites a w Hb He Hw Hh) as (El & _ & _ & _ & _ & _ & Et & _).
  destruct (finish_capture_idle a w) as [(Hbusy & _) _].
  fold c r in El, Et, Hbusy. split.
  - rewrite Et.
    match goal with
    | |- context [ process_output ?A ?x ?y ?wd ?ht ?sl ?W ] =>
        destruct (process_output_trace A x y wd ht sl W) as (out & Ho & _)
    end.
    exists out. rewrite Ho. simpl. by rewrite <- app_assoc.
  - unfold last_capture in El. injection El as Eb Ee _.
    unfold start_rapid_capture. rewrite Hbusy, Eb, Ee. cbv zeta.
    simpl global_begin. simpl global_end.
    match goal with
    | |- context [ capture_from_coordinates ?b ?e ?A w' ] =>
        destruct (capture_from_coordinates_spec b e A w')
          as (_ & _ & added & Ha & _ & _ & Hfirst)
    end.
    destruct (coordinates_bounds_normalized (global_begin a) (global_end a))
      as (_ & _ & _ & _ & Ew & Eh).
    destruct (Hfirst ltac:(lia) ltac:(lia) shots Hg) as [out ->].
    exists out. exact Ha.
Qed.

(** ** Cleaning up twice *)

(** X21.  [_cleanup_overlays] is idempotent: a second call right after the
    first changes nothing. *)
Theorem cleanup_overlays_idempotent a w :
  let r := _cleanup_overlays a w in
  _cleanup_overlays r.1 r.2 = r.
Proof.
  destruct a, w. unfold _cleanup_overlays. cbv zeta. simpl.
  destruct is_capturing0, (bool_decide (capture_mode0 = Some rapid)) eqn:E;
    simpl; rewrite ?E; done.
Qed.

(** ** The further statements at concrete inputs *)

Lemma create_overlays_per_screen_witness :
  Forall (fun s => fault s = NoFault) (screens (test_world two_screens ∅))
  /\ overlays (_create_overlays 800 600 test_app (test_world two_screens ∅)).1
     = [0%nat; 1%nat]
  /\ is_capturing (_create_overlays 800 600 test_app (test_world two_screens ∅)).1 = true.
Proof.
  assert (Forall (fun s => fault s = NoFault) (screens (test_world two_screens ∅))) as H
    by (repeat constructor).
  pose proof (create_overlays_per_screen 800 600 test_app (test_world two_screens ∅) H) as R.
  cbv zeta in R.
  exact (conj H (conj (proj1 R) (proj1 (proj2 (proj2 (proj2 (proj2 R))))))).
Defined.

Lemma start_buttons_rejected_while_busy_witness :
  is_overlay_operation_in_progress armed_freehand.1 = true
  /\ run [ClickRapid; ClickFixed 20 16; ClickFreehand] (armed_freehand.1, armed_freehand.2)
     = (armed_freehand.1, armed_freehand.2).
Proof.
  assert (is_overlay_operation_in_progress armed_freehand.1 = true) as H by reflexivity.
  split; [exact H|].
  apply (start_buttons_rejected_while_busy
           [ClickRapid; ClickFixed 20 16; ClickFreehand]
           armed_freehand.1 armed_freehand.2); [by repeat constructor|exact H].
Defined.

Lemma overlay_events_ignored_unless_capturing_witness :
  is_capturing test_app = false
  /\ run [MousePress 0 true (QPoint.make 5 5); KeyPress 0 true]
         (test_app, test_world two_screens ∅)
     = (test_app, test_world two_screens ∅).
Proof.
  split; [reflexivity|].
  apply (overlay_events_ignored_unless_capturing
           [MousePress 0 true (QPoint.make 5 5); KeyPress 0 true]);
    [by repeat constructor|reflexivity].
Defined.

Lemma run_hidden_only_when_busy_witness :
  hidden_only_when_busy (test_app, test_world two_screens ∅)
  /\ window_visible armed_freehand.2 = false
  /\ hidden_only_when_busy armed_freehand.
Proof.
  assert (hidden_only_when_busy (test_app, test_world two_screens ∅)) as H
    by (intros E; discriminate E).
  split; [exact H|]. split; [reflexivity|].
  exact (run_hidden_only_when_busy [ClickFreehand; TimerCreateOverlays 800 600] _ H).
Defined.

Lemma run_last_capture_consistent_witness :
  last_capture_consistent test_app
  /\ last_capture_consistent (run (good_session ++ narrow_session)
                                  (test_app, test_world two_screens ∅)).1.
Proof.
  assert (last_capture_consistent test_app) as H.
  { unfold last_capture_consistent. simpl. split_and!; done. }
  split; [exact H|].
  exact (run_last_capture_consistent (good_session ++ narrow_session)
           (test_app, test_world two_screens ∅) H).
Defined.

Lemma finish_capture_success_witness :
  last_capture_begin (finish_capture selected armed_freehand.2).1 = Some (QPoint.make 5 5)
  /\ global_begin (finish_capture selected armed_freehand.2).1 = QPoint.null
  /\ idle (finish_capture selected armed_freehand.2).1
          (finish_capture selected armed_freehand.2).2.
Proof.
  pose proof (finish_capture_success selected armed_freehand.2) as R.
  cbv zeta in R.
  destruct R as (Hl & Hb & _ & _ & _ & Hi & _);
    [reflexivity|reflexivity|vm_compute; reflexivity|vm_compute; reflexivity|].
  split; [|by split].
  exact (f_equal (fun t => t.1.1) Hl).
Defined.


Lemma fixed_click_selection_witness :
  (finish_capture
     (set_global_end (QPoint.make 39 27)
        (set_global_begin (QPoint.make 20 12) armed_fixed.1))
     (set_widgets (alter (set_update_timer false) 1%nat (widgets armed_fixed.2))
        armed_fixed.2))
  = mousePressEvent 1 true (QPoint.make 30 20) armed_fixed.1 armed_fixed.2.
Proof.
  assert (widgets armed_fixed.2 !! 1%nat
          = Some (show_overlay
                    (new_overlay (test_screen (-40) 0 40 30 20000 NoFault)
                       (Some fixed) 20 16))) as Hself by reflexivity.
  pose proof (fixed_click_selection 1 _ (QPoint.make 30 20) armed_fixed.1 armed_fixed.2
                Hself eq_refl eq_refl) as R.
  cbv zeta in R. destruct R as (_ & Hr & _). symmetry. exact Hr.
Defined.

Lemma freehand_drag_ignores_moves_witness :
  run (MousePress 0 true (QPoint.make 5 5)
         :: [MouseMove 0 (QPoint.make 12 9); MouseMove 1 (QPoint.make (-3) 4)]
            ++ [MouseRelease 0 true (QPoint.make 25 20)])
      (armed_freehand.1, armed_freehand.2)
  = run [MousePress 0 true (QPoint.make 5 5); MouseRelease 0 true (QPoint.make 25 20)]
        (armed_freehand.1, armed_freehand.2).
Proof.
  assert (widgets armed_freehand.2 !! 0%nat
          = Some (show_overlay
                    (new_overlay (test_screen 0 0 40 30 10000 NoFault)
                       (Some freehand) 800 600))) as Hself by reflexivity.
  apply (freehand_drag_ignores_moves 0 _ (QPoint.make 5 5) (QPoint.make 25 20)
           [MouseMove 0 (QPoint.make 12 9); MouseMove 1 (QPoint.make (-3) 4)]
           armed_freehand.1 armed_freehand.2 Hself);
    try reflexivity; try (simpl; lia).
  by repeat constructor.
Defined.

Lemma rapid_capture_after_success_witness :
  grab_screens 0 (screens (test_world two_screens ∅)) = Some test_shots
  /\ exists out,
       trace (start_rapid_capture (finish_capture selected armed_freehand.2).1
                (test_world two_screens ∅)).2
       = trace (test_world two_screens ∅)
         ++ Composite (QRect.make 5 5 20 15) (ops (composite 5 5 20 15 test_shots)) :: out.
Proof.
  assert (grab_screens 0 (screens (test_world two_screens ∅)) = Some test_shots) as Hg
    by reflexivity.
  split; [exact Hg|].
  pose proof (rapid_capture_after_success selected armed_freehand.2
                (test_world two_screens ∅) test_shots) as R.
  cbv zeta in R.
  destruct R as (_ & Hr);
    [reflexivity|reflexivity|vm_compute; reflexivity|vm_compute; reflexivity|exact Hg|].
  exact Hr.
Defined.

(** ** The size inputs *)

Lemma findText_Some text texts i :
  findText text texts = Some i -> texts !! i = Some text.
Proof.
  revert i. induction texts as [|t texts IH]; intros i H; simpl in H; [done|].
  case_bool_decide as E.
  - injection H as <-. by rewrite E.
  - destruct (findText text texts) as [j|]; [|done].
    injection H as <-. by apply IH.
Qed.

Lemma findText_None text texts : findText text texts = None <-> text ∉ texts.
Proof.
  induction texts as [|t texts IH]; simpl.
  - split; [intros _; apply not_elem_of_nil|done].
  - case_bool_decide as E.
    + split; [done|]. intros H. exfalso. apply H. subst. by left.
    + rewrite not_elem_of_cons. destruct (findText text texts); simpl.
      * split; [done|]. intros [_ H]. by apply IH in H.
      * split; [|done]. intros _. split; [done|]. by apply IH.
Qed.

Lemma setCurrentText_present text c :
  text ∈ items c -> currentText (setCurrentText text c) = text
                    /\ items (setCurrentText text c) = items c.
Proof.
  intros Hin. unfold setCurrentText.
  destruct (findText text (items c)) as [i|] eqn:E.
  - unfold currentText. simpl. by rewrite (findText_Some _ _ _ E).
  - by apply findText_None in E.
Qed.

Lemma currentText_listed c i :
  currentIndex c = Some i -> (i < length (items c))%nat -> currentText c ∈ items c.
Proof.
  intros Hi Hlt. unfold currentText. rewrite Hi.
  destruct (lookup_lt_is_Some_2 (items c) i Hlt) as [t Ht]. rewrite Ht. simpl.
  by eapply list_elem_of_lookup_2.
Qed.

(** X22.  When the two size inputs list the same items and each shows
    one of them, [swap_dimensions] exchanges the two texts shown, and
    doing it twice shows the original texts again. *)
Theorem swap_dimensions_exchanges wi hi i j :
  items wi = items hi ->
  currentIndex wi = Some i -> (i < length (items wi))%nat ->
  currentIndex hi = Some j -> (j < length (items hi))%nat ->
  let once := swap_dimensions (wi, hi) in
  let twice := swap_dimensions once in
  currentText once.1 = currentText hi
  /\ currentText once.2 = currentText wi
  /\ currentText twice.1 = currentText wi
  /\ currentText twice.2 = currentText hi.
Proof.
  intros Hitems Hi Hlti Hj Hltj once twice.
  pose proof (currentText_listed wi i Hi Hlti) as Hw.
  pose proof (currentText_listed hi j Hj Hltj) as Hh.
  destruct (setCurrentText_present (currentText hi) wi) as [E1 I1]; [by rewrite Hitems|].
  destruct (setCurrentText_present (currentText wi) hi) as [E2 I2]; [by rewrite <- Hitems|].
  unfold twice, once, swap_dimensions. cbn [fst snd].
  split; [done|]. split; [done|]. rewrite E1, E2. split.
  - destruct (setCurrentText_present (currentText wi)
                (setCurrentText (currentText hi) wi)) as [H _]; [|exact H].
    rewrite I1. exact Hw.
  - destruct (setCurrentText_present (currentText hi)
                (setCurrentText (currentText wi) hi)) as [H _]; [|exact H].
    rewrite I2. exact Hh.
Qed.

(** X23.  A size input shows the configured default only when the
    default is one of the listed sizes; otherwise it shows the first size
    of the list (so with sizes 768, 640, ... and the default 800 it shows
    768), and nothing when the list is empty. *)
Theorem size_input_shows sizes dflt :
  (dflt ∈ sizes -> currentText (size_input sizes dflt) = pretty dflt)
  /\ (dflt ∉ sizes ->
      currentText (size_input sizes dflt)
      = match sizes with [] => EmptyString | first :: _ => pretty first end).
Proof.
  unfold size_input. split.
  - intros Hin.
    destruct (setCurrentText_present (pretty dflt) (combo_with (pretty <$> sizes)))
      as [H _]; [|exact H].
    simpl. apply list_elem_of_fmap. by exists dflt.
  - intros Hout. unfold setCurrentText.
    assert (findText (pretty dflt) (items (combo_with (pretty <$> sizes))) = None) as ->.
    { apply findText_None. simpl. intros (z & Hz & Hin)%list_elem_of_fmap.
      apply (inj pretty) in Hz. by subst. }
    by destruct sizes.
Qed.

Lemma swap_dimensions_exchanges_witness :
  let wi := size_input DEFAULT_SIZES 640 in
  let hi := size_input DEFAULT_SIZES 480 in
  currentText wi = "640"%string /\ currentText hi = "480"%string
  /\ currentText (swap_dimensions (wi, hi)).1 = currentText hi
  /\ currentText (swap_dimensions (swap_dimensions (wi, hi))).1 = currentText wi.
Proof.
  cbv zeta.
  pose proof (swap_dimensions_exchanges (size_input DEFAULT_SIZES 640)
                (size_input DEFAULT_SIZES 480) 1 4) as R.
  cbv zeta in R.
  destruct R as (H1 & _ & H3 & _);
    [reflexivity|reflexivity|simpl; lia|reflexivity|simpl; lia|].
  split; [reflexivity|]. split; [reflexivity|]. by split.
Defined.

Lemma size_input_shows_witness :
  currentText (size_input DEFAULT_SIZES 800) = "768"%string
  /\ currentText (size_input DEFAULT_SIZES 512) = "512"%string.
Proof.
  destruct (size_input_shows DEFAULT_SIZES 800) as [_ H1].
  destruct (size_input_shows DEFAULT_SIZES 512) as [H2 _].
  split.
  - rewrite H1; [reflexivity|]. unfold DEFAULT_SIZES. intros H.
    repeat (apply elem_of_cons in H as [H|H]; [discriminate H|]).
    by apply elem_of_nil in H.
  - rewrite H2; [reflexivity|]. unfold DEFAULT_SIZES.
    do 3 (apply elem_of_cons; right). apply elem_of_cons. by left.
Defined.

(** ** Saving twice *)




(** With the plain name and [_1] taken, two captures in a row are saved
    with the suffixes [_2] and [_3]. *)
Example fixed_location_saves_twice_names :
  let a := set_output_mode fixed_location test_app in
  let w := test_world two_screens taken_files in
  trace (process_output a 5 5 100 100 (test_pixmap 2 2 7)
           (process_output a 5 5 100 100 (test_pixmap 2 2 0) w))
  = [SavePixmap "/tmp/shots/capture_5_5_100x100_2.png"
       [[Some 0; Some 1]; [Some 100; Some 101]];
     SavePixmap "/tmp/shots/capture_5_5_100x100_3.png"
       [[Some 7; Some 8]; [Some 107; Some 108]]].
Proof. vm_compute. reflexivity. Qed.
